(** * retwist: query parameters and the wait-on-shutdown handler

    A shallow embedding of [retwist/param.py] and
    [retwist/util/wait_on_shutdown.py], and the properties of both that the
    specification states.

    Python values are modelled as follows.
    - [bytes] is [string]: a Rocq [ascii] is exactly one 8-bit byte, so a
      [string] is a byte string and [b"true"] is written ["true"].
    - [str] is a list of Unicode code points ([N]); [text "true"] is the
      [str] literal ["true"].
    - a raised exception is the [Raise] case of [result]; stateful code
      lives in the monad [M] of the module [WaitOnShutdown].
    - times and delays are rationals ([Q]), in seconds.

    Of [param.py] every class is embedded; the text that [EnumParam]
    puts in its error message and [LangParam.parse_accept_language] are
    taken as given. *)

From Stdlib Require Import ZArith NArith QArith Ascii String List.
From Stdlib Require Import DecimalString Lqa.
From stdpp Require Import base gmap sets list strings.

Local Open Scope N_scope.

(** ** Python values and exceptions *)

Abbreviation bytes := string (only parsing).
Abbreviation str := (list N) (only parsing).

Definition byte_values (b : bytes) : list N :=
  N_of_ascii <$> list_ascii_of_string b.

Definition bytes_of_values (l : list N) : bytes :=
  string_of_list_ascii (ascii_of_N <$> l).

(** A [str] literal whose characters are all ASCII. *)
Definition text (s : string) : str := byte_values s.

Inductive PyVal :=
| PyNone
| PyBool (b : bool)
| PyInt (z : Z)
| PyStr (s : str)
| PyBytes (b : bytes)
| PyTuple (t : list Z).

(** [x is None] *)
Definition is_None (v : PyVal) : bool :=
  match v with PyNone => true | _ => false end.

(** Truth value testing, as [if default:] does it. *)
Definition truthy (v : PyVal) : bool :=
  match v with
  | PyNone => false
  | PyBool b => b
  | PyInt z => negb (z =? 0)%Z
  | PyStr s => negb (bool_decide (s = []))
  | PyBytes b => negb (bool_decide (b = EmptyString))
  | PyTuple t => negb (bool_decide (t = []))
  end.

Definition BAD_REQUEST : Z := 400.

Inductive exn :=
| ValueError (msg : string)
| KeyError (key : Z)
| UnicodeDecodeError
| UnicodeEncodeError
| AlreadyCalledError
| Error (code : Z) (message : bytes).

Inductive result (A : Type) :=
| Return (a : A)
| Raise (e : exn).
Arguments Return {A} a.
Arguments Raise {A} e.

(** [result] is a monad; [x ← r; k] runs [k] unless [r] raised. *)
#[export] Instance result_ret : MRet result := λ A a, Return a.
#[export] Instance result_bind : MBind result := λ A B k r,
  match r with
  | Return a => k a
  | Raise e => Raise e
  end.
#[export] Instance result_fmap : FMap result := λ A B f r,
  match r with
  | Return a => Return (f a)
  | Raise e => Raise e
  end.

(** [try: body except (TypeError, ValueError): handler]; of the exceptions
    modelled here the clause catches [ValueError] and its subclasses
    [UnicodeDecodeError] and [UnicodeEncodeError]. *)
Definition is_ValueError (e : exn) : bool :=
  match e with
  | ValueError _ | UnicodeDecodeError | UnicodeEncodeError => true
  | _ => false
  end.

Definition try_except_ValueError {A} (body : result A) (handler : result A)
  : result A :=
  match body with
  | Return a => Return a
  | Raise e => if is_ValueError e then handler else Raise e
  end.

(** ** [bytes.decode()] and [str.encode()]: strict UTF-8 *)

Definition between (lo hi b : N) : bool := (lo <=? b) && (b <=? hi).

Definition continuation (b : N) : bool := between 128 191 b.

(** The six payload bits of the continuation byte [b], appended to [acc]. *)
Definition push6 (acc b : N) : N := acc * 64 + (b - 128).

(** The range of the second byte depends on the lead byte: it excludes
    overlong forms, surrogates and code points above U+10FFFF. *)
Definition second_of_three (b0 b1 : N) : bool :=
  if b0 =? 224 then between 160 191 b1
  else if b0 =? 237 then between 128 159 b1
  else continuation b1.

Definition second_of_four (b0 b1 : N) : bool :=
  if b0 =? 240 then between 144 191 b1
  else if b0 =? 244 then between 128 143 b1
  else continuation b1.

Fixpoint utf8_decode (bs : list N) : option str :=
  match bs with
  | [] => Some []
  | b0 :: r0 =>
    if b0 <? 128 then cons b0 <$> utf8_decode r0
    else
      match r0 with
      | [] => None
      | b1 :: r1 =>
        if between 194 223 b0 then
          if continuation b1
          then cons (push6 (b0 - 192) b1) <$> utf8_decode r1
          else None
        else
          match r1 with
          | [] => None
          | b2 :: r2 =>
            if between 224 239 b0 then
              if second_of_three b0 b1 && continuation b2
              then cons (push6 (push6 (b0 - 224) b1) b2) <$> utf8_decode r2
              else None
            else
              match r2 with
              | [] => None
              | b3 :: r3 =>
                if between 240 244 b0 then
                  if second_of_four b0 b1 && continuation b2 && continuation b3
                  then cons (push6 (push6 (push6 (b0 - 240) b1) b2) b3)
                         <$> utf8_decode r3
                  else None
                else None
              end
          end
      end
  end.

(** [val.decode()] *)
Definition decode (val : bytes) : result str :=
  match utf8_decode (byte_values val) with
  | Some s => Return s
  | None => Raise UnicodeDecodeError
  end.

(** The continuation byte that carries the [k]-th group of six bits of [c],
    counted from the low end. *)
Definition tail6 (c : N) (k : N) : N := 128 + (c / 64 ^ k) mod 64.

Definition utf8_encode_char (c : N) : option (list N) :=
  if c <? 128 then Some [c]
  else if c <? 2048 then Some [192 + c / 64; tail6 c 0]
  else if between 55296 57343 c then None
  else if c <? 65536 then Some [224 + c / 4096; tail6 c 1; tail6 c 0]
  else if c <? 1114112
       then Some [240 + c / 262144; tail6 c 2; tail6 c 1; tail6 c 0]
       else None.

(** [name.encode()] *)
Definition encode (s : str) : result bytes :=
  match mapM utf8_encode_char s with
  | Some chunks => Return (bytes_of_values (concat chunks))
  | None => Raise UnicodeEncodeError
  end.

(** ** [str.split] on a one-character separator and [int(str)] *)

Fixpoint split (sep : N) (s : str) : list str :=
  match s with
  | [] => [[]]
  | c :: r =>
    if c =? sep then [] :: split sep r
    else match split sep r with
         | h :: t => (c :: h) :: t
         | [] => [[c]]
         end
  end.

(** [int(s)] is modelled as CPython 3.11 computes it for a [str]: the
    characters beyond ASCII are first turned into ASCII ones, then the
    ASCII text is read as a base-10 literal. The tables are those of the
    interpreter, with Unicode 14.0, and the limit on the number of digits is
    its default. Of the messages of [ValueError] only the fixed beginning is
    kept, not the text of the argument that follows it. *)

(** [Py_ISSPACE]: the ASCII white space that the literal may start and end
    with. *)
Definition is_space (c : N) : bool :=
  between 9 13 c || (c =? 32).

(** [Py_UNICODE_ISSPACE] beyond ASCII. *)
Definition is_unicode_space (c : N) : bool :=
  (c =? 133) || (c =? 160) || (c =? 5760) || between 8192 8202 c
  || between 8232 8233 c || (c =? 8239) || (c =? 8287) || (c =? 12288).

(** The decimal digits beyond ASCII come in runs of ten, from the digit
    zero to the digit nine; these are the code points of the zeros. *)
Definition decimal_zeros : list N :=
  [1632; 1776; 1984; 2406; 2534; 2662; 2790; 2918; 3046; 3174; 3302; 3430;
   3558; 3664; 3792; 3872; 4160; 4240; 6112; 6160; 6470; 6608; 6784; 6800;
   6992; 7088; 7232; 7248; 42528; 43216; 43264; 43472; 43504; 43600; 44016;
   65296; 66720; 68912; 69734; 69872; 69942; 70096; 70384; 70736; 70864;
   71248; 71360; 71472; 71904; 72016; 72784; 73040; 73120; 92768; 92864;
   93008; 120782; 120792; 120802; 120812; 120822; 123200; 123632; 125264;
   130032].

(** [Py_UNICODE_TODECIMAL] beyond ASCII. *)
Definition unicode_decimal (c : N) : option N :=
  (λ zero, c - zero)
    <$> find (λ zero, between zero (zero + 9) c) decimal_zeros.

Definition space : N := 32.
Definition digit_zero : N := 48.
Definition question_mark : N := 63.

(** [_PyUnicode_TransformDecimalAndSpaceToASCII] on a string that is not
    all ASCII: a space becomes [' '], a decimal digit its ASCII digit, and
    at the first character that is neither the text ends in ['?']. *)
Fixpoint transform_decimal_and_space (s : str) : list N :=
  match s with
  | [] => []
  | c :: r =>
    if c <? 127 then c :: transform_decimal_and_space r
    else if is_unicode_space c then space :: transform_decimal_and_space r
    else match unicode_decimal c with
         | Some d => (digit_zero + d) :: transform_decimal_and_space r
         | None => [question_mark]
         end
  end.

(** An ASCII string is taken as it is. *)
Definition to_ascii (s : str) : list N :=
  if forallb (λ c, c <? 128) s then s else transform_decimal_and_space s.

(** The value of an ASCII digit. *)
Definition digit_value (c : N) : option Z :=
  if between 48 57 c then Some (Z.of_N (c - 48)) else None.

Definition underscore : N := 95.
Definition plus_sign : N := 43.
Definition minus_sign : N := 45.

(** [sys.get_int_max_str_digits()], by default. *)
Definition max_str_digits : N := 4300.

Definition invalid_literal : exn :=
  ValueError "invalid literal for int() with base 10".

Definition exceeds_limit : exn :=
  ValueError "Exceeds the limit (4300 digits) for integer string conversion".

(** The run of digits and underscores at the start of [s]: the number of
    digits, their value and what follows the run. Two underscores in a row
    and an underscore at the end of the run are invalid. *)
Fixpoint scan_digits (digits : N) (acc : Z) (prev_underscore : bool)
    (s : list N) : option (N * Z * list N) :=
  match s with
  | [] => if prev_underscore then None else Some (digits, acc, [])
  | c :: r =>
    match digit_value c with
    | Some d => scan_digits (digits + 1) (10 * acc + d)%Z false r
    | None =>
      if c =? underscore
      then if prev_underscore then None else scan_digits digits acc true r
      else if prev_underscore then None else Some (digits, acc, s)
    end
  end.

Fixpoint lstrip (s : list N) : list N :=
  match s with
  | c :: r => if is_space c then lstrip r else s
  | [] => []
  end.

(** The literal after the sign. The limit on the digits is checked as soon
    as they are counted, before what follows them is looked at. *)
Definition unsigned_literal (s : list N) : result Z :=
  match s with
  | c :: _ =>
    if c =? underscore then Raise invalid_literal
    else
      match scan_digits 0 0 false s with
      | None => Raise invalid_literal
      | Some (digits, z, rest) =>
        if max_str_digits <? digits then Raise exceeds_limit
        else if digits =? 0 then Raise invalid_literal
        else match lstrip rest with
             | [] => Return z
             | _ :: _ => Raise invalid_literal
             end
      end
  | [] => Raise invalid_literal
  end.

(** [PyLong_FromString] in base 10, on the whole of an ASCII text. *)
Definition PyLong_FromString (s : list N) : result Z :=
  match lstrip s with
  | c :: r =>
    if c =? plus_sign then unsigned_literal r
    else if c =? minus_sign then Z.opp <$> unsigned_literal r
    else unsigned_literal (c :: r)
  | [] => Raise invalid_literal
  end.

(** [int(s)] for a [str] argument. *)
Definition int (s : str) : result Z := PyLong_FromString (to_ascii s).

(** [map(f, xs)] consumed by [tuple(...)]: the first exception stops it. *)
Fixpoint map_result {A B} (f : A → result B) (xs : list A)
  : result (list B) :=
  match xs with
  | [] => Return []
  | x :: r => y ← f x; ys ← map_result f r; Return (y :: ys)
  end.

(** [t1 < t2] on tuples of integers, as the interpreter compares sequences:
    the first index at which the items differ decides; when there is none
    within the shorter length, the lengths are compared. *)
Fixpoint first_difference (v w : list Z) : option (Z * Z) :=
  match v, w with
  | x :: v', y :: w' =>
    if (x =? y)%Z then first_difference v' w' else Some (x, y)
  | _, _ => None
  end.

Definition tuple_lt (v w : list Z) : bool :=
  match first_difference v w with
  | Some (x, y) => (x <? y)%Z
  | None => (length v <? length w)%nat
  end.

(** ** [retwist/param.py] *)

Module Param.

(** [request.args]: the query arguments, each name with the list of the
    values passed for it. *)
Record Request := { args : gmap string (list bytes) }.

(** A parameter object. Subclasses override [parse]; the field holds the
    method the object was created with. *)
Record Param := {
  required : bool;
  default : PyVal;
  parse : bytes → result PyVal
}.

(** [Param.__init__], for the class whose [parse] method is [parse_method]. *)
Definition __init__ (parse_method : bytes → result PyVal)
    (required : bool) (default : PyVal) : result Param :=
  if required && truthy default
  then Raise (ValueError "Required parameters can't have a default")
  else Return {| required := required; default := default;
                 parse := parse_method |}.

(** [Param.parse_from_request] *)
Definition parse_from_request (self : Param) (name : str) (request : Request)
  : result PyVal :=
  name_bytes ← encode name;
  match args request !! name_bytes with
  | None =>
    if negb (is_None (default self)) then Return (default self)
    else if required self
         then Raise (Error BAD_REQUEST (name_bytes +:+ " is required"))
         else Return PyNone
  | Some vals =>
    match vals with
    | [val] => parse self val
    | _ => Raise (Error BAD_REQUEST
                    ("Pass exactly one argument for " +:+ name_bytes))
    end
  end.

(** [Param.parse] *)
Definition Param_parse (val : bytes) : result PyVal :=
  val_str ← decode val; Return (PyStr val_str).

(** [BoolParam.parse]. [val_str] is a [str], so [val_str is None] is
    false. *)
Definition BoolParam_parse (val : bytes) : result PyVal :=
  val_str ← decode val;
  if is_None (PyStr val_str) || bool_decide (val_str = text "false")
  then Return (PyBool false)
  else if bool_decide (val_str = text "true")
  then Return (PyBool true)
  else Raise (Error BAD_REQUEST "Boolean parameter must be 'true' or 'false'").

Definition dot : N := 46.

(** [VersionParam.parse] *)
Definition VersionParam_parse (val : bytes) : result PyVal :=
  val_str ← decode val;
  try_except_ValueError
    (t ← map_result int (split dot val_str); Return (PyTuple t))
    (Raise (Error BAD_REQUEST "Invalid version literal")).

Definition BoolParam := __init__ BoolParam_parse.
Definition VersionParam := __init__ VersionParam_parse.

(** [b"%d" % n]: the decimal digits of [n], after a minus sign when [n]
    is negative; the interpreter refuses to write more than
    [max_str_digits] digits. *)
Definition format_d (n : Z) : result bytes :=
  let digits := NilZero.string_of_int (Z.to_int (Z.abs n)) in
  if max_str_digits <? N.of_nat (String.length digits)
  then Raise exceeds_limit
  else Return (NilZero.string_of_int (Z.to_int n)).

(** [IntParam.parse], for the bounds given to [IntParam.__init__]; [None]
    is no bound. *)
Definition IntParam_parse (min_val max_val : option Z) (val : bytes)
  : result PyVal :=
  val_str ← decode val;
  val_int ← try_except_ValueError
              (int val_str)
              (Raise (Error BAD_REQUEST ("Invalid integer: " +:+ val)));
  _ ← match min_val with
      | Some m =>
        if (val_int <? m)%Z
        then digits ← format_d m;
             Raise (Error BAD_REQUEST ("Minimum value " +:+ digits))
        else Return ()
      | None => Return ()
      end;
  _ ← match max_val with
      | Some m =>
        if (m <? val_int)%Z
        then digits ← format_d m;
             Raise (Error BAD_REQUEST ("Maximum value " +:+ digits))
        else Return ()
      | None => Return ()
      end;
  Return (PyInt val_int).

(** [IntParam.__init__] *)
Definition IntParam (min_val max_val : option Z) :=
  __init__ (IntParam_parse min_val max_val).

Section EnumParam.

(** [str(sorted(self.enum)).encode()], the list of the allowed values as
    the error message shows it. The text depends on [repr], and through it
    on the Unicode character database, so it is taken as given. *)
Variable sorted_enum_bytes : gset (list N) → bytes.

(** [EnumParam.parse], for [self.enum = frozenset(enum)]. *)
Definition EnumParam_parse (enum : gset (list N)) (val : bytes)
  : result PyVal :=
  val_str ← decode val;
  if bool_decide (val_str ∉ enum)
  then Raise (Error BAD_REQUEST
                ("Parameter must be one of " +:+ sorted_enum_bytes enum))
  else Return (PyStr val_str).

(** [EnumParam.__init__] *)
Definition EnumParam (enum : gset (list N)) :=
  __init__ (EnumParam_parse enum).

End EnumParam.

Section LangParam.

(** [LangParam.parse_accept_language]: the locales of the header with
    their weights, heaviest first. It is built on a regular expression and
    on [float], and is taken as given. *)
Variable parse_accept_language : str → result (list (str * str)).

(** [LangParam.infer_lang]; [http_header] is what
    [request.getHeader("Accept-Language")] returns. *)
Definition infer_lang (self : Param) (http_header : option str)
  : result PyVal :=
  match http_header with
  | Some header =>
    if truthy (PyStr header) then
      match parse_accept_language header with
      | Raise e => if is_ValueError e then Return (default self) else Raise e
      | Return locales =>
        match locales with
        | (locale, _) :: _ => Return (PyStr locale)
        | [] => Return (default self)
        end
      end
    else Return (default self)
  | None => Return (default self)
  end.

(** [LangParam.parse_from_request] *)
Definition LangParam_parse_from_request (self : Param) (name : str)
    (request : Request) (http_header : option str) : result PyVal :=
  match args request !! "lang" with
  | Some _ => parse_from_request self name request
  | None => infer_lang self http_header
  end.

End LangParam.

End Param.

(** ** [retwist/util/wait_on_shutdown.py] *)

Module WaitOnShutdown.

(** *** The parts of Twisted and of [logging] that the handler calls *)

Inductive LogRecord :=
| info (msg : string) (args : list nat)
| warning (msg : string) (args : list nat).

(** The callables handed to [reactor.callLater]. *)
Inductive DelayedCall := kill_timeout_call | kill_if_requests_done_call.

(** The callbacks added to a [Deferred]; the only one is the
    [DeferredList]'s [_cbDeferred], bound to the index in its list. *)
Inductive Callback := cbDeferred (index : nat).

(** A fired [Deferred] holds [(succeeded, value)]: it was fired through
    [callback] or through [errback]. *)
Record Deferred := {
  called : bool;
  fired_with : option (bool * PyVal);
  callbacks : list Callback
}.

(** [Deferred()] *)
Definition new_Deferred : Deferred :=
  {| called := false; fired_with := None; callbacks := [] |}.

(** [DeferredList], with the default [fireOnOneCallback=False],
    [fireOnOneErrback=False]. *)
Record DeferredList := {
  resultList : list (option (bool * PyVal));
  finishedCount : nat;
  list_called : bool
}.

(** The names [shutdown] and its closures refer to. *)
Inductive DeferredName := timeout_deferred_name | close_conn_deferred_name.

Record State := {
  running_reqs : gset Z;
  timeout_deferred : Deferred;
  close_conn_deferred : Deferred;
  (** the [DeferredList] that [shutdown] returns, once it is built *)
  shutdown_deferred : option DeferredList;
  (** the reactor's pending delayed calls, each with the time it is due *)
  delayed_calls : list (Q * DelayedCall);
  (** [reactor.seconds()] *)
  seconds : Q;
  log : list LogRecord
}.

Definition set_running_reqs (f : gset Z → gset Z) (st : State) : State :=
  {| running_reqs := f (running_reqs st);
     timeout_deferred := timeout_deferred st;
     close_conn_deferred := close_conn_deferred st;
     shutdown_deferred := shutdown_deferred st;
     delayed_calls := delayed_calls st;
     seconds := seconds st;
     log := log st |}.

Definition set_deferred (name : DeferredName) (d : Deferred) (st : State)
  : State :=
  {| running_reqs := running_reqs st;
     timeout_deferred :=
       match name with
       | timeout_deferred_name => d
       | _ => timeout_deferred st
       end;
     close_conn_deferred :=
       match name with
       | close_conn_deferred_name => d
       | _ => close_conn_deferred st
       end;
     shutdown_deferred := shutdown_deferred st;
     delayed_calls := delayed_calls st;
     seconds := seconds st;
     log := log st |}.

Definition get_deferred (name : DeferredName) (st : State) : Deferred :=
  match name with
  | timeout_deferred_name => timeout_deferred st
  | close_conn_deferred_name => close_conn_deferred st
  end.

Definition set_shutdown_deferred (dl : option DeferredList) (st : State)
  : State :=
  {| running_reqs := running_reqs st;
     timeout_deferred := timeout_deferred st;
     close_conn_deferred := close_conn_deferred st;
     shutdown_deferred := dl;
     delayed_calls := delayed_calls st;
     seconds := seconds st;
     log := log st |}.

Definition set_delayed_calls (calls : list (Q * DelayedCall)) (st : State)
  : State :=
  {| running_reqs := running_reqs st;
     timeout_deferred := timeout_deferred st;
     close_conn_deferred := close_conn_deferred st;
     shutdown_deferred := shutdown_deferred st;
     delayed_calls := calls;
     seconds := seconds st;
     log := log st |}.

Definition set_seconds (t : Q) (st : State) : State :=
  {| running_reqs := running_reqs st;
     timeout_deferred := timeout_deferred st;
     close_conn_deferred := close_conn_deferred st;
     shutdown_deferred := shutdown_deferred st;
     delayed_calls := delayed_calls st;
     seconds := t;
     log := log st |}.

Definition add_log (r : LogRecord) (st : State) : State :=
  {| running_reqs := running_reqs st;
     timeout_deferred := timeout_deferred st;
     close_conn_deferred := close_conn_deferred st;
     shutdown_deferred := shutdown_deferred st;
     delayed_calls := delayed_calls st;
     seconds := seconds st;
     log := log st ++ [r] |}.

(** A computation on the state that returns or raises; what it did to the
    state before raising stays done. *)
Definition M (A : Type) : Type := State → result A * State.

#[export] Instance M_ret : MRet M := λ A a st, (Return a, st).
#[export] Instance M_bind : MBind M := λ A B k m st,
  match m st with
  | (Return a, st') => k a st'
  | (Raise e, st') => (Raise e, st')
  end.

Definition gets {A} (f : State → A) : M A := λ st, (Return (f st), st).
Definition modify (f : State → State) : M unit := λ st, (Return (), f st).
Definition raise {A} (e : exn) : M A := λ st, (Raise e, st).

(** [for x in xs: body(x)] *)
Fixpoint for_each {A} (xs : list A) (body : A → M unit) : M unit :=
  match xs with
  | [] => mret ()
  | x :: r => _ ← body x; for_each r body
  end.

Definition logging_info (msg : string) (args : list nat) : M unit :=
  modify (add_log (info msg args)).

Definition logging_warning (msg : string) (args : list nat) : M unit :=
  modify (add_log (warning msg args)).

(** [reactor.callLater(delay, f)] *)
Definition callLater (delay : Q) (f : DelayedCall) : M unit :=
  modify (λ st, set_delayed_calls
                  (delayed_calls st ++ [((seconds st + delay)%Q, f)]) st).

(** [DeferredList._cbDeferred(result, index, succeeded)] *)
Definition _cbDeferred (res : PyVal) (index : nat) (succeeded : bool)
  : M unit :=
  dl ← gets shutdown_deferred;
  match dl with
  | None => mret ()
  | Some dl =>
    let results := <[index := Some (succeeded, res)]> (resultList dl) in
    let count := S (finishedCount dl) in
    let fire := negb (list_called dl) && (count =? length results)%nat in
    modify (set_shutdown_deferred
              (Some {| resultList := results; finishedCount := count;
                       list_called := list_called dl || fire |}))
  end.

Definition run_callback (fired : bool * PyVal) (cb : Callback) : M unit :=
  match cb with
  | cbDeferred index => _cbDeferred fired.2 index fired.1
  end.

(** [Deferred.callback] and [Deferred.errback]: a second firing raises
    [AlreadyCalledError]; the first one records the result and runs the
    callbacks added so far. *)
Definition fire (name : DeferredName) (fired : bool * PyVal) : M unit :=
  d ← gets (get_deferred name);
  if called d then raise AlreadyCalledError
  else
    _ ← modify (set_deferred name
                  {| called := true; fired_with := Some fired;
                     callbacks := [] |});
    for_each (callbacks d) (run_callback fired).

Definition Deferred_callback (name : DeferredName) (res : PyVal) : M unit :=
  fire name (true, res).

(** [Deferred.addCallbacks]: on a fired [Deferred] the callback runs at
    once. *)
Definition addCallbacks (name : DeferredName) (cb : Callback) : M unit :=
  d ← gets (get_deferred name);
  match fired_with d with
  | Some fired => run_callback fired cb
  | None =>
    modify (set_deferred name
              {| called := called d; fired_with := fired_with d;
                 callbacks := callbacks d ++ [cb] |})
  end.

(** [DeferredList([timeout_deferred, close_conn_deferred])] *)
Definition new_DeferredList : M unit :=
  _ ← modify (set_shutdown_deferred
                (Some {| resultList := [None; None]; finishedCount := 0;
                         list_called := false |}));
  _ ← addCallbacks timeout_deferred_name (cbDeferred 0);
  addCallbacks close_conn_deferred_name (cbDeferred 1).

(** [port.stopListening()]: the [Deferred] it returns has fired already
    when the port was stopped at once, and fires later otherwise. *)
Definition stopListening (stopped_at_once : bool) : Deferred :=
  if stopped_at_once
  then {| called := true; fired_with := Some (true, PyNone); callbacks := [] |}
  else new_Deferred.

(** *** The handler *)

(** [remove_req(_, req_hash)]: [set.remove] raises [KeyError] for an
    element that is not in the set. *)
Definition remove_req (req_hash : Z) : M unit :=
  reqs ← gets running_reqs;
  if bool_decide (req_hash ∈ reqs)
  then modify (set_running_reqs (λ s, s ∖ {[req_hash]}))
  else raise (KeyError req_hash).

(** [request_factory]; [req_hash] is [id(req)] of the
    request that the wrapped factory made. The callback it adds to
    [req.notifyFinish()] is the event [request_finished] below. *)
Definition request_factory (req_hash : Z) : M Z :=
  _ ← modify (set_running_reqs (λ s, {[req_hash]} ∪ s));
  mret req_hash.

Definition kill_timeout : M unit :=
  reqs ← gets running_reqs;
  _ ← logging_warning "Timeout reached, canceling %s requests" [size reqs];
  Deferred_callback timeout_deferred_name (PyBool true).

Definition kill_if_requests_done : M unit :=
  reqs ← gets running_reqs;
  if bool_decide (reqs = ∅) then
    _ ← logging_info "No pending requests, shutting down!" [];
    Deferred_callback timeout_deferred_name (PyBool true)
  else
    _ ← logging_info "%s requests still running, waiting ..." [size reqs];
    callLater 5 kill_if_requests_done_call.

(** [shutdown()], for the [timeout] given to [wait_on_shutdown]. *)
Definition shutdown (timeout : Q) (stopped_at_once : bool) : M unit :=
  _ ← logging_info "Shutdown requested" [];
  _ ← modify (set_deferred timeout_deferred_name new_Deferred);
  _ ← callLater timeout kill_timeout_call;
  _ ← modify (set_deferred close_conn_deferred_name
                (stopListening stopped_at_once));
  _ ← kill_if_requests_done;
  new_DeferredList.

(** *** The reactor

    What happens to the site, one event at a time. A delayed call runs at
    the time it is due; of the pending calls the one due first runs next,
    and of two due at the same time the one scheduled first. *)

Inductive Event :=
| request_created (req_hash : Z)
| request_finished (req_hash : Z)
| listening_stopped (succeeded : bool)
| delayed_call_due.

Fixpoint earliest_from (best : nat) (t : Q) (i : nat)
    (calls : list (Q * DelayedCall)) : nat :=
  match calls with
  | [] => best
  | (t', _) :: r =>
    if Qle_bool t t' then earliest_from best t (S i) r
    else earliest_from i t' (S i) r
  end.

Definition earliest (calls : list (Q * DelayedCall)) : option nat :=
  match calls with
  | [] => None
  | (t, _) :: r => Some (earliest_from 0 t 1 r)
  end.

(** Takes the call that is due first out of the pending ones. *)
Definition pop_earliest (calls : list (Q * DelayedCall))
  : option (Q * DelayedCall * list (Q * DelayedCall)) :=
  i ← earliest calls; c ← calls !! i; Some (c, delete i calls).

Definition run_delayed_call (f : DelayedCall) : M unit :=
  match f with
  | kill_timeout_call => kill_timeout
  | kill_if_requests_done_call => kill_if_requests_done
  end.

(** The clock when a call due at [due] runs. *)
Definition advance (due : Q) (st : State) : State :=
  set_seconds (if Qle_bool (seconds st) due then due else seconds st) st.

Definition react (ev : Event) : M unit :=
  match ev with
  | request_created req_hash => _ ← request_factory req_hash; mret ()
  | request_finished req_hash => remove_req req_hash
  | listening_stopped succeeded =>
    (* the port fires the [Deferred] it returned once *)
    d ← gets close_conn_deferred;
    if called d then mret ()
    else fire close_conn_deferred_name (succeeded, PyNone)
  | delayed_call_due =>
    calls ← gets delayed_calls;
    match pop_earliest calls with
    | None => mret ()
    | Some ((due, f), rest) =>
      _ ← modify (set_delayed_calls rest);
      _ ← modify (advance due);
      run_delayed_call f
    end
  end.

(** The state after the events [evs]; an exception that an event raises is
    caught by the reactor, which goes on. *)
Definition run (evs : list Event) (st : State) : State :=
  foldl (λ st ev, (react ev st).2) st evs.

(** The site at time [t], serving the requests [reqs], before the
    shutdown. *)
Definition serving (reqs : gset Z) (t : Q) : State :=
  {| running_reqs := reqs;
     timeout_deferred := new_Deferred;
     close_conn_deferred := new_Deferred;
     shutdown_deferred := None;
     delayed_calls := [];
     seconds := t;
     log := [] |}.

(** [shutdown()] has completed when the [DeferredList] it returned has
    fired. *)
Definition shutdown_complete (st : State) : bool :=
  match shutdown_deferred st with
  | Some dl => list_called dl
  | None => false
  end.

End WaitOnShutdown.

Import Param WaitOnShutdown.

(** * The vocabulary of the statements *)

(** ** Query parameters *)

Definition valid_utf8 (val : bytes) : bool :=
  match utf8_decode (byte_values val) with Some _ => true | None => false end.

Definition is_digit (c : N) : bool := between 48 57 c.

(** A decimal integer as a version string has it: one digit or more. *)
Definition decimal (s : bytes) : Prop :=
  s ≠ "" ∧ Forall (λ c, is_digit c = true) (byte_values s).

(** The number that the digits denote. *)
Definition digits_value (acc : Z) (ds : list N) : Z :=
  foldl (λ acc c, 10 * acc + Z.of_N (c - 48))%Z acc ds.

Definition decimal_value (s : bytes) : Z := digits_value 0 (byte_values s).

(** The digits of [s] are within the limit the interpreter puts on the
    conversion between text and integers. *)
Definition within_limit (s : bytes) : Prop :=
  N.of_nat (String.length s) ≤ max_str_digits.

(** A decimal integer of 4301 digits. *)
Definition long_number : bytes :=
  string_of_list_ascii (replicate 4301 "1"%char).

(** The version string of the components [comps]: [b".".join(comps)]. *)
Definition dotted (comps : list bytes) : bytes := String.concat "." comps.

(** The order of versions in the words of the specification: numeric and
    componentwise, the first component that differs decides, and a version
    that is a proper prefix of another comes before it. *)
Fixpoint version_lt_spec (v w : list Z) : bool :=
  match v, w with
  | [], [] => false
  | [], _ :: _ => true
  | _ :: _, [] => false
  | x :: v', y :: w' =>
    if (x <? y)%Z then true
    else if (y <? x)%Z then false
    else version_lt_spec v' w'
  end.

Fixpoint join_values (sep : N) (l : list (list N)) : list N :=
  match l with
  | [] => []
  | [x] => x
  | x :: r => x ++ sep :: join_values sep r
  end.

(** ** The shutdown handler *)

(** The value both paths resolve [timeout_deferred] with. *)
Definition resolved : Deferred :=
  {| called := true; fired_with := Some (true, PyBool true);
     callbacks := [] |}.

Definition timeout_warning (st : State) : LogRecord :=
  warning "Timeout reached, canceling %s requests" [size (running_reqs st)].

Definition waiting_info (st : State) : LogRecord :=
  info "%s requests still running, waiting ..." [size (running_reqs st)].

Definition done_info : LogRecord :=
  info "No pending requests, shutting down!" [].

(** The state after [reactor.callLater(5, kill_if_requests_done)]. *)
Definition rescheduled (st : State) : State :=
  set_delayed_calls
    (delayed_calls st ++ [((seconds st + 5)%Q, kill_if_requests_done_call)])
    st.

(** [timeout_deferred.callback(True)], the resolution attempt that ends
    both paths. *)
Definition resolve : M unit :=
  Deferred_callback timeout_deferred_name (PyBool true).

(** Shutdown at time 0 with no request tracked and a listener that takes
    time to stop: the drain check resolves at once, the timer stays
    pending. *)
Definition drained_at_once : State :=
  (shutdown 10 false (serving ∅ 0)).2.

(** Shutdown at time 0 with a timeout of 7 seconds and request 1 tracked,
    which never finishes: a recheck after 5 seconds, then the timer after 7
    seconds, which resolves; the recheck scheduled for the 10th second is
    still pending. *)
Definition timed_out : State :=
  run [delayed_call_due; delayed_call_due]
      (shutdown 7 false (serving {[1%Z]} 0)).2.

(** What holds between the three [Deferred]s from the moment [shutdown]
    has returned: the [DeferredList] has counted exactly the [Deferred]s
    of its list that have fired, it has fired itself when it has counted
    both, and it is still waiting in each one that has not fired. *)
Definition joined (st : State) : Prop :=
  ∃ dl, shutdown_deferred st = Some dl ∧
    length (resultList dl) = 2%nat ∧
    finishedCount dl
      = (Nat.b2n (called (timeout_deferred st))
         + Nat.b2n (called (close_conn_deferred st)))%nat ∧
    list_called dl
      = called (timeout_deferred st) && called (close_conn_deferred st) ∧
    (called (timeout_deferred st) = false →
     callbacks (timeout_deferred st) = [cbDeferred 0]) ∧
    (called (close_conn_deferred st) = false →
     callbacks (close_conn_deferred st) = [cbDeferred 1]).

Definition is_listening_stopped (ev : Event) : bool :=
  match ev with listening_stopped _ => true | _ => false end.

(** ** The reactor after the shutdown request *)

(** The tracked set after one event, by the request events alone. *)
Definition track (reqs : gset Z) (ev : Event) : gset Z :=
  match ev with
  | request_created req_hash => {[req_hash]} ∪ reqs
  | request_finished req_hash => reqs ∖ {[req_hash]}
  | _ => reqs
  end.

(** The timer that [shutdown] schedules when it runs in the state [st]. *)
Definition timer (timeout : Q) (st : State) : Q * DelayedCall :=
  ((seconds st + timeout)%Q, kill_timeout_call).

(** A recheck is among the pending calls. *)
Definition recheck_pending (st : State) : Prop :=
  ∃ t, (t, kill_if_requests_done_call) ∈ delayed_calls st.

(** Until [timeout_deferred] has fired, the timer [x] and a recheck are
    pending. *)
Definition waiting (x : Q * DelayedCall) (st : State) : Prop :=
  called (timeout_deferred st) = true ∨
  x ∈ delayed_calls st ∧ recheck_pending st.

(** Until [timeout_deferred] has fired, the timer [x] is pending and it is
    not yet due. *)
Definition in_time (x : Q * DelayedCall) (st : State) : Prop :=
  called (timeout_deferred st) = true ∨
  x ∈ delayed_calls st ∧ (seconds st <= x.1)%Q.

(** * Properties of [retwist/param.py] *)

Section Examples.

Example decode_euro : decode (bytes_of_values [226; 130; 172]) = Return [8364].
Proof. reflexivity. Qed.

Example decode_overlong :
  decode (bytes_of_values [192; 175]) = Raise UnicodeDecodeError.
Proof. reflexivity. Qed.

Example encode_decode :
  (b ← encode [8364; 65; 233; 128512]; decode b)
    = Return [8364; 65; 233; 128512].
Proof. reflexivity. Qed.

Example int_examples :
  int (text " 1_0 ") = Return 10%Z ∧ int (text "-2") = Return (-2)%Z ∧
  int (text "007") = Return 7%Z ∧
  int (text "")
    = Raise (ValueError "invalid literal for int() with base 10") ∧
  int (text "1__0")
    = Raise (ValueError "invalid literal for int() with base 10").
Proof. by vm_compute. Qed.

Example int_unicode_examples :
  int [1633; 1634] = Return 12%Z ∧
  int [160; 65301; 12288] = Return 5%Z ∧
  int [28; 53] = Raise invalid_literal ∧
  int [53; 233] = Raise invalid_literal ∧
  int (text "+ 5") = Raise invalid_literal ∧
  int (text "_5") = Raise invalid_literal ∧
  int (text "5_") = Raise invalid_literal.
Proof. by vm_compute. Qed.

Example int_limit_examples :
  int (replicate 4301 48) = Raise exceeds_limit ∧
  int (replicate 4301 49 ++ text "x") = Raise exceeds_limit ∧
  int (replicate 4301 49 ++ text "__1") = Raise invalid_literal ∧
  int (replicate 4300 48 ++ text " ") = Return 0%Z.
Proof. by vm_compute. Qed.

Example format_d_examples :
  format_d 0 = Return "0" ∧ format_d (-15) = Return "-15" ∧
  format_d (10 ^ 4300) = Raise exceeds_limit ∧
  format_d (- (10 ^ 4300 - 1))
    = Return (String "-" (string_of_list_ascii (replicate 4300 "9"%char))).
Proof. by vm_compute. Qed.

Example IntParam_parse_examples :
  IntParam_parse (Some 1%Z) None "0"
    = Raise (Error BAD_REQUEST "Minimum value 1") ∧
  IntParam_parse None (Some (-3)%Z) " -2 "
    = Raise (Error BAD_REQUEST "Maximum value -3") ∧
  IntParam_parse None None "1e3"
    = Raise (Error BAD_REQUEST "Invalid integer: 1e3") ∧
  IntParam_parse (Some (10 ^ 4300)%Z) None "1" = Raise exceeds_limit.
Proof. by vm_compute. Qed.

Example VersionParam_parse_examples :
  VersionParam_parse "1.02.3" = Return (PyTuple [1; 2; 3]%Z) ∧
  VersionParam_parse "5..10"
    = Raise (Error BAD_REQUEST "Invalid version literal") ∧
  VersionParam_parse "v5" = Raise (Error BAD_REQUEST "Invalid version literal").
Proof. by vm_compute. Qed.

Example BoolParam_parse_examples :
  BoolParam_parse "true" = Return (PyBool true) ∧
  BoolParam_parse "false" = Return (PyBool false) ∧
  BoolParam_parse "True"
    = Raise (Error BAD_REQUEST "Boolean parameter must be 'true' or 'false'").
Proof. by vm_compute. Qed.

Example required_with_default :
  BoolParam true (PyBool true)
    = Raise (ValueError "Required parameters can't have a default") ∧
  (p ← BoolParam true (PyBool false);
   parse_from_request p (text "flag") {| args := ∅ |})
    = Return (PyBool false) ∧
  (p ← BoolParam true PyNone;
   parse_from_request p (text "flag") {| args := ∅ |})
    = Raise (Error BAD_REQUEST "flag is required") ∧
  (p ← BoolParam false PyNone;
   parse_from_request p (text "flag") {| args := {[ "flag" := ["true"] ]} |})
    = Return (PyBool true) ∧
  (p ← BoolParam false PyNone;
   parse_from_request p (text "flag")
     {| args := {[ "flag" := ["true"; "false"] ]} |})
    = Raise (Error BAD_REQUEST "Pass exactly one argument for flag").
Proof. by vm_compute. Qed.

End Examples.

(** Turns the comparisons on [N] that hold in the context into
  propositions, for [lia]. *)
Ltac reflect_N :=
  repeat match goal with
  | H : _ && _ = true |- _ => apply andb_prop in H as [? ?]
  | H : (_ <=? _) = true |- _ => apply N.leb_le in H
  | H : (_ <? _) = true |- _ => apply N.ltb_lt in H
  | H : (_ <? _) = false |- _ => apply N.ltb_ge in H
  | H : (_ =? _) = true |- _ => apply N.eqb_eq in H
  | H : (_ =? _) = false |- _ => apply N.eqb_neq in H
  end.

Section Utf8.

Lemma byte_values_app (a b : bytes) :
  byte_values (a +:+ b) = byte_values a ++ byte_values b.
Proof.
  unfold byte_values. induction a as [|c a IH]; csimpl; [done|].
  f_equal. apply IH.
Qed.

Lemma byte_values_inj (a b : bytes) : byte_values a = byte_values b → a = b.
Proof.
  unfold byte_values.
  revert b. induction a as [|c a IH]; intros [|d b]; csimpl; try done.
  intros [= Hc Hr].
  f_equal; [|by apply IH].
  rewrite <- (ascii_N_embedding c), <- (ascii_N_embedding d). by rewrite Hc.
Qed.

(** ASCII bytes decode to themselves. *)
Lemma utf8_decode_ascii (bs : list N) :
  Forall (λ b, b < 128) bs → utf8_decode bs = Some bs.
Proof.
  induction 1 as [|b bs Hb _ IH]; simpl; [done|].
  apply N.ltb_lt in Hb. by rewrite Hb, IH.
Qed.

Lemma cons_fmap_ascii (c : N) (o : option str) (s : str) :
  cons c <$> o = Some s → Forall (λ c, c < 128) s → c < 128.
Proof.
  destruct o; csimpl; [|done]. intros [= <-] Hs. by inversion Hs.
Qed.

(** Only ASCII bytes decode to ASCII characters: every longer form yields
    a code point from 128 on. *)
Lemma utf8_decode_to_ascii (bs : list N) (s : str) :
  utf8_decode bs = Some s → Forall (λ c, c < 128) s → bs = s.
Proof.
  revert s. induction bs as [|b0 r0 IH]; intros s; simpl.
  { by intros [= <-]. }
  destruct (b0 <? 128) eqn:H0.
  { destruct (utf8_decode r0) as [s'|] eqn:Hr; csimpl; [|done].
    intros [= <-] Hs. inversion Hs; subst. f_equal. by apply IH. }
  apply N.ltb_ge in H0. intros Hd Hs. exfalso.
  destruct r0 as [|b1 r1]; [done|].
  destruct (between 194 223 b0) eqn:H2.
  { destruct (continuation b1) eqn:Hc1; [|done].
    pose proof (cons_fmap_ascii _ _ _ Hd Hs) as Hlt.
    unfold between, continuation, push6 in *. reflect_N. lia. }
  destruct r1 as [|b2 r2]; [done|].
  destruct (between 224 239 b0) eqn:H3.
  { destruct (second_of_three b0 b1 && continuation b2) eqn:Hc; [|done].
    pose proof (cons_fmap_ascii _ _ _ Hd Hs) as Hlt.
    unfold second_of_three, between, continuation, push6 in *.
    destruct (b0 =? 224) eqn:E1; [|destruct (b0 =? 237) eqn:E2];
      reflect_N; lia. }
  destruct r2 as [|b3 r3]; [done|].
  destruct (between 240 244 b0) eqn:H4; [|done].
  destruct (second_of_four b0 b1 && continuation b2 && continuation b3)
    eqn:Hc; [|done].
  pose proof (cons_fmap_ascii _ _ _ Hd Hs) as Hlt.
  unfold second_of_four, between, continuation, push6 in *.
  destruct (b0 =? 240) eqn:E1; [|destruct (b0 =? 244) eqn:E2];
    reflect_N; lia.
Qed.

Lemma byte_values_ascii_text (lit : string) (val : bytes) :
  Forall (λ c, c < 128) (text lit) →
  utf8_decode (byte_values val) = Some (text lit) ↔ val = lit.
Proof.
  intros Hlit. split.
  - intros Hd. apply byte_values_inj.
    by apply utf8_decode_to_ascii.
  - intros ->. by apply utf8_decode_ascii.
Qed.

End Utf8.

Section BoolParam.

Lemma decode_text (lit : string) (val : bytes) :
  Forall (λ c, c < 128) (text lit) →
  decode val = Return (text lit) ↔ val = lit.
Proof.
  intros Hlit. rewrite <- (byte_values_ascii_text lit val Hlit).
  unfold decode. destruct (utf8_decode (byte_values val)); split; congruence.
Qed.

Lemma text_true_ascii : Forall (λ c, c < 128) (text "true").
Proof. repeat constructor. Qed.

Lemma text_false_ascii : Forall (λ c, c < 128) (text "false").
Proof. repeat constructor. Qed.

(** C10, as the code has it: [BoolParam.parse] returns [True] exactly for
    the input that decodes to ["true"] (the bytes [b"true"]), [False]
    exactly for the input that decodes to ["false"], raises the
    [BAD_REQUEST] [Error] for every other input that is valid UTF-8, and
    lets the [UnicodeDecodeError] of [val.decode()] through for input that
    is not. *)
Theorem BoolParam_parse_cases (val : bytes) :
  (decode val = Return (text "true") ↔ val = "true") ∧
  (decode val = Return (text "false") ↔ val = "false") ∧
  BoolParam_parse val =
    if bool_decide (val = "true") then Return (PyBool true)
    else if bool_decide (val = "false") then Return (PyBool false)
    else if valid_utf8 val
    then Raise (Error BAD_REQUEST "Boolean parameter must be 'true' or 'false'")
    else Raise UnicodeDecodeError.
Proof.
  pose proof (decode_text "true" val text_true_ascii) as Ht.
  pose proof (decode_text "false" val text_false_ascii) as Hf.
  split; [done|]. split; [done|].
  unfold BoolParam_parse, valid_utf8, decode in *.
  destruct (utf8_decode (byte_values val)) as [s|]; csimpl.
  - assert (Ht' : s = text "true" ↔ val = "true")
      by (rewrite <- Ht; split; congruence).
    assert (Hf' : s = text "false" ↔ val = "false")
      by (rewrite <- Hf; split; congruence).
    rewrite (bool_decide_ext _ _ Ht'), (bool_decide_ext _ _ Hf').
    repeat case_bool_decide; subst; done.
  - repeat case_bool_decide; try done; exfalso; intuition discriminate.
Qed.

(** C10, as the specification states it, fails on the byte [0xff]: it
    decodes neither to ["true"] nor to ["false"], and [BoolParam.parse]
    raises [UnicodeDecodeError], not the [BAD_REQUEST] [Error]. *)
Lemma BoolParam_parse_undecodable :
  decode (bytes_of_values [255]) ≠ Return (text "true") ∧
  decode (bytes_of_values [255]) ≠ Return (text "false") ∧
  BoolParam_parse (bytes_of_values [255]) = Raise UnicodeDecodeError.
Proof. by vm_compute. Qed.

End BoolParam.

Section MissingArgument.

(** C8: when the parameter's name is not among the query arguments,
    [parse_from_request] returns the default whenever that is not [None],
    required or not; it raises the [BAD_REQUEST] [Error] exactly when the
    default is [None] and the parameter is required, and returns [None]
    otherwise. The constructor refuses a required parameter only when its
    default is truthy, so a required parameter with a falsy default other
    than [None], such as [0], is constructed and returns that default for
    a missing argument. *)
Theorem parse_from_request_missing
    (self : Param) (name : str) (request : Request) (name_bytes : bytes) :
  encode name = Return name_bytes →
  args request !! name_bytes = None →
  parse_from_request self name request =
    (if negb (is_None (default self)) then Return (default self)
     else if required self
          then Raise (Error BAD_REQUEST (name_bytes +:+ " is required"))
          else Return PyNone) ∧
  (∀ parse_method r d,
     __init__ parse_method r d =
       if r && truthy d
       then Raise (ValueError "Required parameters can't have a default")
       else Return {| required := r; default := d;
                      parse := parse_method |}) ∧
  (∀ parse_method d, is_None d = false → truthy d = false →
     ∃ p, __init__ parse_method true d = Return p ∧ required p = true ∧
          parse_from_request p name request = Return d) ∧
  (∃ p, __init__ Param_parse true (PyInt 0) = Return p ∧
        parse_from_request p name request = Return (PyInt 0)).
Proof.
  intros Henc Hargs.
  assert (Hmiss : ∀ p, parse_from_request p name request =
    (if negb (is_None (default p)) then Return (default p)
     else if required p
          then Raise (Error BAD_REQUEST (name_bytes +:+ " is required"))
          else Return PyNone)).
  { intros p. unfold parse_from_request. rewrite Henc. csimpl.
    by rewrite Hargs. }
  split; [apply Hmiss|]. split; [done|]. split.
  - intros parse_method d Hnone Hfalsy. eexists. unfold __init__.
    rewrite Hfalsy. simpl. split; [done|]. split; [done|].
    rewrite Hmiss. simpl. by rewrite Hnone.
  - eexists. split; [done|]. by rewrite Hmiss.
Qed.

Lemma parse_from_request_missing_witness :
  parse_from_request
    {| required := true; default := PyInt 0; parse := Param_parse |}
    (text "page") {| args := {[ "size" := ["10"] ]} |} = Return (PyInt 0).
Proof.
  refine (proj1 (parse_from_request_missing _ (text "page") _ "page" _ _)).
  - reflexivity.
  - reflexivity.
Defined.

End MissingArgument.

Section Versions.

Lemma byte_values_dotted (comps : list bytes) :
  byte_values (dotted comps) = join_values dot (byte_values <$> comps).
Proof.
  unfold dotted. induction comps as [|x [|y r] IH]; [done..|].
  change (String.concat "." (x :: y :: r))
    with (x +:+ "." +:+ String.concat "." (y :: r)).
  rewrite !byte_values_app, IH. done.
Qed.

Lemma split_no_sep (sep : N) (x : list N) :
  sep ∉ x → split sep x = [x].
Proof.
  induction x as [|c x IH]; simpl; [done|].
  intros Hx. apply not_elem_of_cons in Hx as [Hc Hx].
  destruct (N.eqb_spec c sep) as [->|_]; [done|]. by rewrite IH.
Qed.

Lemma split_app_sep (sep : N) (x rest : list N) :
  sep ∉ x → split sep (x ++ sep :: rest) = x :: split sep rest.
Proof.
  induction x as [|c x IH]; simpl.
  { intros _. by rewrite N.eqb_refl. }
  intros Hx. apply not_elem_of_cons in Hx as [Hc Hx].
  destruct (N.eqb_spec c sep) as [->|_]; [done|]. by rewrite IH.
Qed.

Lemma split_join_values (sep : N) (l : list (list N)) :
  l ≠ [] → Forall (λ x, sep ∉ x) l → split sep (join_values sep l) = l.
Proof.
  intros Hne Hl. induction Hl as [|x r Hx Hr IH]; [done|].
  destruct r as [|y r].
  { simpl. by apply split_no_sep. }
  change (join_values sep (x :: y :: r))
    with (x ++ sep :: join_values sep (y :: r)).
  rewrite split_app_sep by done. f_equal. by apply IH.
Qed.

Lemma is_digit_range (c : N) : is_digit c = true → 48 ≤ c ≤ 57.
Proof. unfold is_digit, between. intros H. reflect_N. lia. Qed.

Lemma digit_value_digit (c : N) :
  is_digit c = true → digit_value c = Some (Z.of_N (c - 48)).
Proof. unfold digit_value, is_digit. by intros ->. Qed.

Lemma scan_digits_decimal (ds : list N) (digits : N) (acc : Z) :
  Forall (λ c, is_digit c = true) ds →
  scan_digits digits acc false ds
    = Some (digits + N.of_nat (length ds), digits_value acc ds, []).
Proof.
  intros Hds. revert digits acc.
  induction Hds as [|c ds Hc _ IH]; intros digits acc; simpl scan_digits.
  { simpl. by rewrite N.add_0_r. }
  rewrite (digit_value_digit c Hc), IH. simpl length.
  do 3 f_equal. lia.
Qed.

Lemma forallb_ascii (l : list N) :
  Forall (λ c, c < 128) l → forallb (λ c, c <? 128) l = true.
Proof.
  induction 1 as [|c l Hc _ IH]; simpl; [done|].
  apply N.ltb_lt in Hc. by rewrite Hc, IH.
Qed.

Lemma digits_ascii (ds : list N) :
  Forall (λ c, is_digit c = true) ds → Forall (λ c, c < 128) ds.
Proof.
  intros Hds. eapply Forall_impl; [exact Hds|].
  intros c Hc. apply is_digit_range in Hc. simpl. lia.
Qed.

(** [int] reads a run of ASCII digits within the limit as the number they
    denote. *)
Lemma int_decimal (ds : list N) :
  ds ≠ [] → Forall (λ c, is_digit c = true) ds →
  N.of_nat (length ds) ≤ max_str_digits →
  int ds = Return (digits_value 0 ds).
Proof.
  intros Hne Hds Hlimit. unfold int, to_ascii.
  rewrite (forallb_ascii ds) by by apply digits_ascii.
  pose proof (scan_digits_decimal ds 0 0 Hds) as Hscan.
  destruct ds as [|c ds]; [done|].
  inversion Hds as [|? ? Hc _]; subst.
  apply is_digit_range in Hc.
  assert (is_space c = false) as Hsp.
  { unfold is_space, between. apply orb_false_intro;
      [apply andb_false_iff; rewrite !N.leb_gt|apply N.eqb_neq]; lia. }
  unfold PyLong_FromString. simpl lstrip. rewrite Hsp.
  assert ((c =? plus_sign) = false) as ->
    by (apply N.eqb_neq; unfold plus_sign; lia).
  assert ((c =? minus_sign) = false) as ->
    by (apply N.eqb_neq; unfold minus_sign; lia).
  unfold unsigned_literal.
  assert ((c =? underscore) = false) as ->
    by (apply N.eqb_neq; unfold underscore; lia).
  rewrite Hscan, N.add_0_l.
  assert ((max_str_digits <? N.of_nat (length (c :: ds))) = false) as ->
    by by apply N.ltb_ge.
  assert ((N.of_nat (length (c :: ds)) =? 0) = false) as ->
    by (apply N.eqb_neq; simpl length; lia).
  done.
Qed.

Lemma decimal_digits (s : bytes) :
  decimal s →
  byte_values s ≠ [] ∧ Forall (λ c, is_digit c = true) (byte_values s).
Proof.
  intros [Hne Hds]. split; [|done].
  intros Hnil. apply Hne. by apply byte_values_inj.
Qed.

Lemma byte_values_length (s : bytes) :
  length (byte_values s) = String.length s.
Proof.
  unfold byte_values. rewrite length_fmap.
  induction s as [|a s IH]; simpl; [done|]. by rewrite IH.
Qed.

Lemma int_decimal_bytes (s : bytes) :
  decimal s → within_limit s →
  int (byte_values s) = Return (decimal_value s).
Proof.
  intros Hs Hlimit. apply decimal_digits in Hs as [Hne Hds].
  apply int_decimal; [done..|]. by rewrite byte_values_length.
Qed.

Lemma map_int_decimal (comps : list bytes) :
  Forall decimal comps → Forall within_limit comps →
  map_result int (byte_values <$> comps) = Return (decimal_value <$> comps).
Proof.
  induction 1 as [|s comps Hs _ IH]; intros Hlimit; csimpl; [done|].
  inversion Hlimit as [|? ? Hl Hls]; subst.
  rewrite (int_decimal_bytes _ Hs Hl), IH by done. done.
Qed.

Lemma join_values_ascii (l : list (list N)) :
  Forall (Forall (λ c, c < 128)) l →
  Forall (λ c, c < 128) (join_values dot l).
Proof.
  induction 1 as [|x [|y r] Hx Hr IH]; [constructor|done|].
  change (join_values dot (x :: y :: r))
    with (x ++ dot :: join_values dot (y :: r)).
  apply Forall_app. split; [done|]. constructor; [done|apply IH].
Qed.

Lemma digits_no_dot (ds : list N) :
  Forall (λ c, is_digit c = true) ds → dot ∉ ds.
Proof.
  intros Hds Hin. rewrite Forall_forall in Hds.
  by specialize (Hds _ Hin).
Qed.

Lemma VersionParam_parse_dotted (comps : list bytes) :
  comps ≠ [] → Forall decimal comps → Forall within_limit comps →
  VersionParam_parse (dotted comps)
    = Return (PyTuple (decimal_value <$> comps)).
Proof.
  intros Hne Hcomps Hlimit. unfold VersionParam_parse, decode.
  rewrite byte_values_dotted, utf8_decode_ascii.
  - csimpl. rewrite split_join_values.
    + by rewrite (map_int_decimal _ Hcomps Hlimit).
    + by destruct comps.
    + apply Forall_fmap. eapply Forall_impl; [exact Hcomps|].
      intros s Hs. apply digits_no_dot. by apply decimal_digits in Hs as [_ ?].
  - apply join_values_ascii, Forall_fmap.
    eapply Forall_impl; [exact Hcomps|].
    intros s Hs. apply digits_ascii. by apply decimal_digits in Hs as [_ ?].
Qed.

Lemma tuple_lt_version_lt (v w : list Z) : tuple_lt v w = version_lt_spec v w.
Proof.
  unfold tuple_lt. revert w.
  induction v as [|x v IH]; intros [|y w]; simpl; try done.
  specialize (IH w).
  destruct (Z.eqb_spec x y) as [->|Hxy].
  - rewrite Z.ltb_irrefl.
    destruct (first_difference v w) as [[a b]|]; by rewrite <- IH.
  - destruct (Z.ltb_spec x y); [done|].
    destruct (Z.ltb_spec y x); [done|lia].
Qed.

(** C9, as the code has it: for version strings made of decimal integers
    joined by dots, each of at most 4300 digits, [VersionParam.parse]
    returns the tuple of the integers, and the interpreter's order on these
    tuples is the numeric order of versions (componentwise, a proper prefix
    first); so [parse(b"5.9") < parse(b"5.10")]. *)
Theorem VersionParam_parse_order (comps1 comps2 : list bytes) :
  comps1 ≠ [] → comps2 ≠ [] →
  Forall decimal comps1 → Forall decimal comps2 →
  Forall within_limit comps1 → Forall within_limit comps2 →
  VersionParam_parse (dotted comps1)
    = Return (PyTuple (decimal_value <$> comps1)) ∧
  VersionParam_parse (dotted comps2)
    = Return (PyTuple (decimal_value <$> comps2)) ∧
  tuple_lt (decimal_value <$> comps1) (decimal_value <$> comps2)
    = version_lt_spec (decimal_value <$> comps1) (decimal_value <$> comps2) ∧
  VersionParam_parse "5.9" = Return (PyTuple [5; 9]%Z) ∧
  VersionParam_parse "5.10" = Return (PyTuple [5; 10]%Z) ∧
  tuple_lt [5; 9]%Z [5; 10]%Z = true.
Proof.
  intros Hne1 Hne2 H1 H2 Hl1 Hl2.
  split; [by apply VersionParam_parse_dotted|].
  split; [by apply VersionParam_parse_dotted|].
  split; [apply tuple_lt_version_lt|].
  by vm_compute.
Qed.

Lemma VersionParam_parse_order_witness :
  VersionParam_parse (dotted ["5"; "9"]) = Return (PyTuple [5; 9]%Z) ∧
  VersionParam_parse (dotted ["5"; "10"]) = Return (PyTuple [5; 10]%Z) ∧
  tuple_lt [5; 9]%Z [5; 10]%Z = version_lt_spec [5; 9]%Z [5; 10]%Z.
Proof.
  assert (Hd : ∀ s, s ∈ ["5"; "9"; "10"] → decimal s ∧ within_limit s).
  { intros s Hs. repeat (apply elem_of_cons in Hs as [ -> | Hs ];
      [by (split; [split; [|repeat constructor]|])|]).
    by apply elem_of_nil in Hs. }
  pose proof (VersionParam_parse_order ["5"; "9"] ["5"; "10"]) as H.
  destruct H as (Ha & Hb & Hc & _); [done|done|..].
  - repeat constructor; apply Hd; repeat constructor.
  - repeat constructor; apply Hd; repeat constructor.
  - repeat constructor; apply Hd; repeat constructor.
  - repeat constructor; apply Hd; repeat constructor.
  - exact (conj Ha (conj Hb Hc)).
Defined.

(** C9, as the specification states it, fails on a component of 4301
    digits: it is a decimal integer, but [int] refuses to convert it and
    [VersionParam.parse] raises the [BAD_REQUEST] [Error]. *)
Lemma VersionParam_parse_long_component :
  decimal long_number ∧
  dotted [long_number] = long_number ∧
  VersionParam_parse (dotted [long_number])
    = Raise (Error BAD_REQUEST "Invalid version literal").
Proof.
  split; [|by vm_compute]. split.
  - intros Hempty. vm_compute in Hempty. discriminate Hempty.
  - unfold long_number, byte_values.
    rewrite list_ascii_of_string_of_list_ascii, fmap_replicate.
    by apply Forall_replicate.
Qed.

End Versions.

(** * Properties of [retwist/util/wait_on_shutdown.py] *)

(** Runs the monadic code of the goal as far as it is determined. *)
Ltac run_M :=
  repeat (progress
    (unfold mbind, WaitOnShutdown.M_bind, mret, WaitOnShutdown.M_ret,
       WaitOnShutdown.gets, WaitOnShutdown.modify, WaitOnShutdown.raise;
     cbn)).

Section Tracker.

Lemma set_running_reqs_same (f : gset Z → gset Z) (st : State) :
  f (running_reqs st) = running_reqs st → set_running_reqs f st = st.
Proof. destruct st. unfold set_running_reqs. simpl. by intros ->. Qed.

(** C3, as the code has it: [remove_req] removes an identifier that is in
    the tracked set, which then has one element fewer; for an identifier
    that is not in the set it raises [KeyError] and leaves the state as it
    was. The size of the set is a count, so it is never negative. *)
Theorem remove_req_cases (req_hash : Z) (st : State) :
  (if bool_decide (req_hash ∈ running_reqs st)
   then (remove_req req_hash st).1 = Return () ∧
        running_reqs (remove_req req_hash st).2
          = running_reqs st ∖ {[req_hash]} ∧
        S (size (running_reqs (remove_req req_hash st).2))
          = size (running_reqs st)
   else remove_req req_hash st = (Raise (KeyError req_hash), st)) ∧
  (0 ≤ Z.of_nat (size (running_reqs (remove_req req_hash st).2)))%Z.
Proof.
  split; [|lia].
  unfold remove_req. run_M. case_bool_decide as Hin; [|done].
  run_M. split; [done|]. split; [done|].
  rewrite size_difference by set_solver. rewrite size_singleton.
  assert (size (running_reqs st) ≠ 0%nat); [|lia].
  intros Hz. apply size_empty_inv in Hz. set_solver.
Qed.

(** C3, as the specification states it, fails when a request that is not
    tracked finishes: [remove_req] raises [KeyError]. *)
Lemma remove_req_absent_raises :
  (7 ∉ running_reqs (serving ∅ 0))%Z ∧
  (remove_req 7 (serving ∅ 0)).1 = Raise (KeyError 7).
Proof. split; [apply not_elem_of_empty|reflexivity]. Qed.

(** C6, as the code has it: [request_factory] accepts a request whose
    identifier is already tracked; it returns the request and leaves the
    tracked set, and the rest of the state, as they were. *)
Theorem request_factory_tracked (req_hash : Z) (st : State) :
  req_hash ∈ running_reqs st →
  request_factory req_hash st = (Return req_hash, st).
Proof.
  intros Hin. unfold request_factory. run_M. f_equal.
  by apply set_running_reqs_same, subseteq_union_1_L, singleton_subseteq_l.
Qed.

Lemma request_factory_tracked_witness :
  request_factory 7 (serving {[7%Z]} 0)
    = (Return 7%Z, serving {[7%Z]} 0).
Proof.
  apply request_factory_tracked. simpl. by apply elem_of_singleton_2.
Defined.

(** C6, as the specification states it, fails: registering the tracked
    identifier 7 again returns the request, with no error. *)
Lemma request_factory_twice_accepted :
  (7 ∈ running_reqs (serving {[7%Z]} 0))%Z ∧
  (request_factory 7 (serving {[7%Z]} 0)).1 = Return 7%Z ∧
  size (running_reqs (request_factory 7 (serving {[7%Z]} 0)).2) = 1%nat.
Proof. split; [simpl; by apply elem_of_singleton_2|]. by vm_compute. Qed.

End Tracker.

Section Signal.

Lemma set_shutdown_deferred_same (st : State) :
  set_shutdown_deferred (shutdown_deferred st) st = st.
Proof. by destruct st. Qed.

(** The callbacks of a [Deferred] return, and touch nothing but the
    [DeferredList]. *)
Lemma run_callback_frame (fired : bool * PyVal) (cb : Callback) (st : State) :
  ∃ dl, run_callback fired cb st = (Return (), set_shutdown_deferred dl st).
Proof.
  destruct cb as [index]. unfold run_callback, _cbDeferred. run_M.
  destruct (shutdown_deferred st) as [dl|] eqn:Hdl; run_M.
  - by eexists.
  - exists None. by rewrite <- Hdl, set_shutdown_deferred_same.
Qed.

Lemma for_each_callbacks_frame (fired : bool * PyVal) (cbs : list Callback)
    (st : State) :
  ∃ dl, for_each cbs (run_callback fired) st
        = (Return (), set_shutdown_deferred dl st).
Proof.
  revert st. induction cbs as [|cb cbs IH]; intros st; simpl.
  - exists (shutdown_deferred st). by rewrite set_shutdown_deferred_same.
  - destruct (run_callback_frame fired cb st) as [dl Hcb].
    run_M. rewrite Hcb.
    destruct (IH (set_shutdown_deferred dl st)) as [dl' ->].
    by exists dl'.
Qed.

(** Firing a [Deferred] that has fired raises, and changes nothing. *)
Lemma fire_called (name : DeferredName) (fired : bool * PyVal) (st : State) :
  called (get_deferred name st) = true →
  fire name fired st = (Raise AlreadyCalledError, st).
Proof. intros Hc. unfold fire. run_M. by rewrite Hc. Qed.

(** Firing a [Deferred] for the first time records the result, runs the
    callbacks it holds and returns. *)
Lemma fire_first (name : DeferredName) (fired : bool * PyVal) (st : State) :
  called (get_deferred name st) = false →
  fire name fired st =
    for_each (callbacks (get_deferred name st)) (run_callback fired)
      (set_deferred name {| called := true; fired_with := Some fired;
                            callbacks := [] |} st).
Proof. intros Hc. unfold fire. run_M. by rewrite Hc. Qed.

Lemma fire_first_frame (name : DeferredName) (fired : bool * PyVal)
    (st : State) :
  called (get_deferred name st) = false →
  ∃ dl, fire name fired st =
        (Return (),
         set_shutdown_deferred dl
           (set_deferred name {| called := true; fired_with := Some fired;
                                 callbacks := [] |} st)).
Proof.
  intros Hc. rewrite (fire_first _ _ _ Hc).
  apply for_each_callbacks_frame.
Qed.

Lemma kill_timeout_eq (st : State) :
  kill_timeout st
    = fire timeout_deferred_name (true, PyBool true)
        (add_log (timeout_warning st) st).
Proof. reflexivity. Qed.

Lemma kill_if_requests_done_eq (st : State) :
  kill_if_requests_done st =
    if bool_decide (running_reqs st = ∅)
    then fire timeout_deferred_name (true, PyBool true) (add_log done_info st)
    else (Return (), rescheduled (add_log (waiting_info st) st)).
Proof.
  unfold kill_if_requests_done. run_M. by case_bool_decide.
Qed.

(** C7: [kill_timeout] writes one warning with the number of tracked
    requests and resolves [timeout_deferred] (when that has fired before,
    the attempt raises); it leaves the set of tracked requests as it was,
    and with it the pending calls, the clock and the listener's
    [Deferred]: no tracked request is removed or cancelled. *)
Theorem kill_timeout_frame (st : State) :
  running_reqs (kill_timeout st).2 = running_reqs st ∧
  log (kill_timeout st).2
    = log st ++ [warning "Timeout reached, canceling %s requests"
                   [size (running_reqs st)]] ∧
  delayed_calls (kill_timeout st).2 = delayed_calls st ∧
  seconds (kill_timeout st).2 = seconds st ∧
  close_conn_deferred (kill_timeout st).2 = close_conn_deferred st ∧
  (if called (timeout_deferred st)
   then (kill_timeout st).1 = Raise AlreadyCalledError ∧
        timeout_deferred (kill_timeout st).2 = timeout_deferred st
   else (kill_timeout st).1 = Return () ∧
        timeout_deferred (kill_timeout st).2 = resolved).
Proof.
  rewrite kill_timeout_eq.
  set (st1 := add_log _ st).
  destruct (called (timeout_deferred st)) eqn:Hc.
  - rewrite (fire_called timeout_deferred_name _ st1) by done. by cbn.
  - destruct (fire_first_frame timeout_deferred_name (true, PyBool true) st1)
      as [dl ->]; [done|]. by cbn.
Qed.

(** C5: [shutdown] runs the drain check before it returns. With no tracked
    request the check resolves [timeout_deferred] with [True] at once and
    schedules nothing; otherwise it leaves [timeout_deferred] unfired and
    schedules [kill_if_requests_done] 5 seconds later. The call that is
    then due runs [kill_if_requests_done] again, which tests the set in
    the same way: empty, it logs and resolves; not empty, it logs and
    schedules itself 5 seconds later. *)
Theorem drain_check (timeout : Q) (stopped_at_once : bool) (st : State) :
  (shutdown timeout stopped_at_once st).1 = Return () ∧
  (if bool_decide (running_reqs st = ∅)
   then timeout_deferred (shutdown timeout stopped_at_once st).2 = resolved ∧
        delayed_calls (shutdown timeout stopped_at_once st).2
          = delayed_calls st ++ [((seconds st + timeout)%Q, kill_timeout_call)]
   else called (timeout_deferred (shutdown timeout stopped_at_once st).2)
          = false ∧
        delayed_calls (shutdown timeout stopped_at_once st).2
          = delayed_calls st ++
              [((seconds st + timeout)%Q, kill_timeout_call);
               ((seconds st + 5)%Q, kill_if_requests_done_call)]) ∧
  run_delayed_call kill_if_requests_done_call = kill_if_requests_done ∧
  kill_if_requests_done st =
    (if bool_decide (running_reqs st = ∅)
     then Deferred_callback timeout_deferred_name (PyBool true)
            (add_log (info "No pending requests, shutting down!" []) st)
     else (Return (),
           set_delayed_calls
             (delayed_calls st ++
                [((seconds st + 5)%Q, kill_if_requests_done_call)])
             (add_log (info "%s requests still running, waiting ..."
                         [size (running_reqs st)]) st))).
Proof.
  split; [|split; [|split; [done|apply kill_if_requests_done_eq]]].
  - unfold shutdown, kill_if_requests_done, new_DeferredList, addCallbacks,
      Deferred_callback, fire, callLater, logging_info.
    run_M. case_bool_decide; destruct stopped_at_once; run_M; done.
  - unfold shutdown, kill_if_requests_done, new_DeferredList, addCallbacks,
      Deferred_callback, fire, callLater, logging_info.
    run_M. case_bool_decide; destruct stopped_at_once; run_M;
      by rewrite <- ?app_assoc.
Qed.

(** *** Along a run of the reactor *)

Lemma react_delayed_call_due (st : State) :
  react delayed_call_due st =
    match pop_earliest (delayed_calls st) with
    | None => (Return (), st)
    | Some ((due, f), rest) =>
      run_delayed_call f (advance due (set_delayed_calls rest st))
    end.
Proof.
  unfold react. run_M.
  by destruct (pop_earliest (delayed_calls st)) as [[[due f] rest]|].
Qed.

(** What a delayed call does once [timeout_deferred] has fired. *)
Lemma run_delayed_call_resolved (f : DelayedCall) (st : State) :
  called (timeout_deferred st) = true →
  run_delayed_call f st =
    match f with
    | kill_timeout_call =>
      (Raise AlreadyCalledError, add_log (timeout_warning st) st)
    | kill_if_requests_done_call =>
      if bool_decide (running_reqs st = ∅)
      then (Raise AlreadyCalledError, add_log done_info st)
      else (Return (), rescheduled (add_log (waiting_info st) st))
    end.
Proof.
  intros Hc. destruct f; simpl.
  - rewrite kill_timeout_eq. by apply fire_called.
  - rewrite kill_if_requests_done_eq. case_bool_decide; [|done].
    by apply fire_called.
Qed.

(** Once fired, [timeout_deferred] is never written again. *)
Lemma react_resolved (ev : Event) (st : State) :
  called (timeout_deferred st) = true →
  timeout_deferred (react ev st).2 = timeout_deferred st.
Proof.
  intros Hc. destruct ev as [h|h|ok|].
  - reflexivity.
  - unfold react, remove_req. run_M. by case_bool_decide.
  - unfold react. run_M.
    destruct (called (close_conn_deferred st)) eqn:Hcc; [done|].
    destruct (fire_first_frame close_conn_deferred_name (ok, PyNone) st)
      as [dl ->]; done.
  - rewrite react_delayed_call_due.
    destruct (pop_earliest (delayed_calls st)) as [[[due f] rest]|]; [|done].
    rewrite run_delayed_call_resolved by done.
    destruct f; [done|]. by case_bool_decide.
Qed.

Lemma run_resolved (evs : list Event) (st : State) :
  called (timeout_deferred st) = true →
  timeout_deferred (run evs st) = timeout_deferred st.
Proof.
  revert st. induction evs as [|ev evs IH]; intros st Hc; [done|].
  simpl. rewrite IH; rewrite react_resolved; done.
Qed.

(** C1, as the code has it: [kill_timeout] and the drain-complete branch
    of [kill_if_requests_done] both end in the same resolution attempt.
    The first attempt returns, records the outcome [True] and runs the
    callbacks added so far; every later attempt raises
    [AlreadyCalledError] and changes nothing, and whatever happens next
    the recorded outcome stays. *)
Theorem resolve_once (st : State) (evs : list Event) :
  kill_timeout st = resolve (add_log (timeout_warning st) st) ∧
  kill_if_requests_done st =
    (if bool_decide (running_reqs st = ∅)
     then resolve (add_log done_info st)
     else (Return (), rescheduled (add_log (waiting_info st) st))) ∧
  (if called (timeout_deferred st)
   then resolve st = (Raise AlreadyCalledError, st) ∧
        timeout_deferred (run evs st) = timeout_deferred st
   else resolve st =
          for_each (callbacks (timeout_deferred st))
            (run_callback (true, PyBool true))
            (set_deferred timeout_deferred_name resolved st) ∧
        (resolve st).1 = Return () ∧
        timeout_deferred (resolve st).2 = resolved ∧
        timeout_deferred (run evs (resolve st).2) = resolved).
Proof.
  split; [apply kill_timeout_eq|]. split; [apply kill_if_requests_done_eq|].
  unfold resolve, Deferred_callback.
  destruct (called (timeout_deferred st)) eqn:Hc.
  - split; [by apply fire_called|by apply run_resolved].
  - split; [by apply fire_first|].
    destruct (fire_first_frame timeout_deferred_name (true, PyBool true) st)
      as [dl Hf]; [done|]. rewrite Hf. split; [done|]. split; [done|].
    by rewrite run_resolved.
Qed.

(** C1, as the specification states it, fails when the timer fires after a
    clean drain: the second resolution attempt raises
    [AlreadyCalledError]. *)
Lemma second_resolution_raises :
  timeout_deferred drained_at_once = resolved ∧
  delayed_calls drained_at_once = [(10%Q, kill_timeout_call)] ∧
  (react delayed_call_due drained_at_once).1 = Raise AlreadyCalledError.
Proof. by vm_compute. Qed.

(** C2, as the code has it: once [timeout_deferred] has fired, a leftover
    recheck tests only the tracked set. While that is not empty it logs
    and schedules itself again 5 seconds later; when it is empty its
    resolution attempt raises [AlreadyCalledError]. The leftover timer
    logs its warning and raises [AlreadyCalledError]. Neither changes the
    tracked set, the outcome recorded in [timeout_deferred], the
    listener's [Deferred] or the [DeferredList] of the shutdown. *)
Theorem leftover_calls (f : DelayedCall) (st : State) :
  called (timeout_deferred st) = true →
  run_delayed_call f st =
    match f with
    | kill_timeout_call =>
      (Raise AlreadyCalledError, add_log (timeout_warning st) st)
    | kill_if_requests_done_call =>
      if bool_decide (running_reqs st = ∅)
      then (Raise AlreadyCalledError, add_log done_info st)
      else (Return (), rescheduled (add_log (waiting_info st) st))
    end ∧
  running_reqs (run_delayed_call f st).2 = running_reqs st ∧
  timeout_deferred (run_delayed_call f st).2 = timeout_deferred st ∧
  close_conn_deferred (run_delayed_call f st).2 = close_conn_deferred st ∧
  shutdown_deferred (run_delayed_call f st).2 = shutdown_deferred st.
Proof.
  intros Hc. rewrite (run_delayed_call_resolved f st Hc).
  split; [done|]. destruct f; [done|]. by case_bool_decide.
Qed.

Lemma leftover_calls_witness :
  run_delayed_call kill_if_requests_done_call timed_out
    = (Return (), rescheduled (add_log (waiting_info timed_out) timed_out)).
Proof.
  refine (proj1 (leftover_calls kill_if_requests_done_call timed_out _)).
  reflexivity.
Defined.

(** C2, as the specification states it, fails on both leftover calls.
    After the timeout has resolved, the recheck that is due still runs and
    schedules the next one; after a clean drain, the timer that is due
    writes its warning and raises [AlreadyCalledError]. *)
Lemma leftover_calls_observable :
  called (timeout_deferred timed_out) = true ∧
  delayed_calls timed_out = [(10%Q, kill_if_requests_done_call)] ∧
  react delayed_call_due timed_out
    = (Return (),
       set_delayed_calls [(15%Q, kill_if_requests_done_call)]
         (set_seconds 10%Q
            (add_log (info "%s requests still running, waiting ..." [1%nat])
               timed_out))) ∧
  called (timeout_deferred drained_at_once) = true ∧
  react delayed_call_due drained_at_once
    = (Raise AlreadyCalledError,
       set_delayed_calls []
         (set_seconds 10%Q
            (add_log (warning "Timeout reached, canceling %s requests"
                        [0%nat]) drained_at_once))).
Proof. by vm_compute. Qed.

End Signal.

Section Join.

Lemma shutdown_joined (timeout : Q) (stopped_at_once : bool) (st : State) :
  joined (shutdown timeout stopped_at_once st).2 ∧
  called (close_conn_deferred (shutdown timeout stopped_at_once st).2)
    = stopped_at_once.
Proof.
  unfold joined, shutdown, kill_if_requests_done, new_DeferredList,
    addCallbacks, Deferred_callback, fire, callLater, logging_info.
  run_M. case_bool_decide; destruct stopped_at_once; run_M;
    (split; [eexists; split; [done|]; by cbn|done]).
Qed.

Lemma fire_joined (name : DeferredName) (fired : bool * PyVal) (st : State) :
  joined st → joined (fire name fired st).2.
Proof.
  intros (dl & Hdl & Hlen & Hcount & Hlc & Htd & Hcd).
  destruct (called (get_deferred name st)) eqn:Hc.
  { rewrite fire_called by done. by exists dl. }
  rewrite fire_first by done.
  destruct name; cbn [get_deferred] in *.
  - rewrite (Htd Hc). unfold for_each, run_callback, _cbDeferred.
    run_M. rewrite Hdl. run_M. eexists. split; [done|]. cbn.
    rewrite length_insert, Hlen, Hcount, Hlc, Hc.
    destruct (called (close_conn_deferred st)); cbn; repeat split; auto; done.
  - rewrite (Hcd Hc). unfold for_each, run_callback, _cbDeferred.
    run_M. rewrite Hdl. run_M. eexists. split; [done|]. cbn.
    rewrite length_insert, Hlen, Hcount, Hlc, Hc.
    destruct (called (timeout_deferred st)); cbn; repeat split; auto; done.
Qed.

Lemma run_delayed_call_joined (f : DelayedCall) (st : State) :
  joined st → joined (run_delayed_call f st).2.
Proof.
  intros Hj. destruct f; simpl.
  - rewrite kill_timeout_eq. by apply fire_joined.
  - rewrite kill_if_requests_done_eq. case_bool_decide; [|done].
    by apply fire_joined.
Qed.

Lemma run_delayed_call_close_conn (f : DelayedCall) (st : State) :
  close_conn_deferred (run_delayed_call f st).2 = close_conn_deferred st.
Proof.
  assert (Hfire : ∀ st',
    close_conn_deferred
      (fire timeout_deferred_name (true, PyBool true) st').2
    = close_conn_deferred st').
  { intros st'. destruct (called (timeout_deferred st')) eqn:Hc.
    - by rewrite fire_called.
    - destruct (fire_first_frame timeout_deferred_name (true, PyBool true) st')
        as [dl ->]; done. }
  destruct f; simpl.
  - rewrite kill_timeout_eq. by rewrite Hfire.
  - rewrite kill_if_requests_done_eq. case_bool_decide; [|done].
    by rewrite Hfire.
Qed.

Lemma react_joined (ev : Event) (st : State) :
  joined st →
  joined (react ev st).2 ∧
  called (close_conn_deferred (react ev st).2)
    = called (close_conn_deferred st) || is_listening_stopped ev.
Proof.
  intros Hj. destruct ev as [h|h|ok|].
  - split; [done|]. symmetry. apply orb_false_r.
  - unfold react, remove_req. run_M.
    case_bool_decide; (split; [done|]); symmetry; apply orb_false_r.
  - unfold react. run_M.
    destruct (called (close_conn_deferred st)) eqn:Hcc; [done|].
    split; [by apply fire_joined|].
    destruct (fire_first_frame close_conn_deferred_name (ok, PyNone) st)
      as [dl ->]; done.
  - rewrite react_delayed_call_due.
    destruct (pop_earliest (delayed_calls st)) as [[[due f] rest]|].
    + split; [by apply run_delayed_call_joined|].
      rewrite run_delayed_call_close_conn. symmetry. apply orb_false_r.
    + split; [done|]. symmetry. apply orb_false_r.
Qed.

Lemma run_joined (evs : list Event) (st : State) :
  joined st →
  joined (run evs st) ∧
  called (close_conn_deferred (run evs st))
    = called (close_conn_deferred st) || existsb is_listening_stopped evs.
Proof.
  revert st. induction evs as [|ev evs IH]; intros st Hj; simpl.
  { split; [done|]. symmetry. apply orb_false_r. }
  destruct (react_joined ev st Hj) as [Hj' Hc'].
  destruct (IH _ Hj') as [Hj'' Hc''].
  split; [done|]. by rewrite Hc'', Hc', orb_assoc.
Qed.

(** C4: after [shutdown] has returned, and whatever happens next, the
    shutdown has completed exactly when both [timeout_deferred] and the
    [Deferred] of [port.stopListening()] have fired; and the latter has
    fired exactly when the port had stopped at once or has reported since
    that it stopped. So the shutdown never completes before the listener
    has stopped, also when every request has finished. *)
Theorem shutdown_complete_join (timeout : Q) (stopped_at_once : bool)
    (st : State) (evs : list Event) :
  shutdown_complete (run evs (shutdown timeout stopped_at_once st).2)
    = called (timeout_deferred
                (run evs (shutdown timeout stopped_at_once st).2))
      && called (close_conn_deferred
                   (run evs (shutdown timeout stopped_at_once st).2)) ∧
  called (close_conn_deferred
            (run evs (shutdown timeout stopped_at_once st).2))
    = stopped_at_once || existsb is_listening_stopped evs.
Proof.
  destruct (shutdown_joined timeout stopped_at_once st) as [Hj Hc].
  destruct (run_joined evs _ Hj) as [(dl & Hdl & _ & _ & Hlc & _) Hc'].
  split; [|by rewrite Hc', Hc].
  unfold shutdown_complete. by rewrite Hdl.
Qed.

(** A timeout of zero: the timer is the first call to run and forces the
    completion with request 1 still tracked. *)
Example zero_timeout :
  timeout_deferred
    (run [delayed_call_due] (shutdown 0 true (serving {[1%Z]} 0)).2)
    = resolved ∧
  running_reqs (run [delayed_call_due] (shutdown 0 true (serving {[1%Z]} 0)).2)
    = {[1%Z]} ∧
  shutdown_complete
    (run [delayed_call_due] (shutdown 0 true (serving {[1%Z]} 0)).2) = true.
Proof. by vm_compute. Qed.

(** Three requests that finish within the first 5 seconds: the first
    recheck finds the set empty and resolves. *)
Example three_requests_drain :
  timeout_deferred
    (run [request_finished 1; request_finished 2; request_finished 3;
          delayed_call_due]
       (shutdown 10 true (serving {[1%Z; 2%Z; 3%Z]} 0)).2) = resolved ∧
  seconds
    (run [request_finished 1; request_finished 2; request_finished 3;
          delayed_call_due]
       (shutdown 10 true (serving {[1%Z; 2%Z; 3%Z]} 0)).2) = 5%Q.
Proof. by vm_compute. Qed.

(** With every request drained at once, the shutdown is complete only
    after the listener has stopped. *)
Example drained_waits_for_listener :
  shutdown_complete drained_at_once = false ∧
  shutdown_complete (run [delayed_call_due] drained_at_once) = false ∧
  shutdown_complete (run [listening_stopped true] drained_at_once) = true.
Proof. by vm_compute. Qed.

End Join.

(** * Further properties of [retwist/util/wait_on_shutdown.py] *)

Section Reactor.

Lemma set_frame_same (name : DeferredName) (st : State) :
  set_shutdown_deferred (shutdown_deferred st)
    (set_deferred name (get_deferred name st) st) = st.
Proof. by destruct st, name. Qed.

(** Firing a [Deferred] leaves it fired, and touches nothing but itself
    and the [DeferredList]. *)
Lemma fire_frame (name : DeferredName) (fired : bool * PyVal) (st : State) :
  ∃ d dl, (fire name fired st).2
          = set_shutdown_deferred dl (set_deferred name d st) ∧
          called d = true.
Proof.
  destruct (called (get_deferred name st)) eqn:Hc.
  - rewrite fire_called by done.
    exists (get_deferred name st), (shutdown_deferred st).
    by rewrite set_frame_same.
  - destruct (fire_first_frame name fired st Hc) as [dl ->].
    by eexists _, dl.
Qed.

(** What a delayed call leaves as it was, and what it does to the pending
    calls. *)
Lemma run_delayed_call_frame (f : DelayedCall) (st : State) :
  running_reqs (run_delayed_call f st).2 = running_reqs st ∧
  seconds (run_delayed_call f st).2 = seconds st ∧
  (delayed_calls (run_delayed_call f st).2 = delayed_calls st ∧
   called (timeout_deferred (run_delayed_call f st).2) = true
   ∨ f = kill_if_requests_done_call ∧ running_reqs st ≠ ∅ ∧
     delayed_calls (run_delayed_call f st).2
       = delayed_calls st
         ++ [((seconds st + 5)%Q, kill_if_requests_done_call)] ∧
     timeout_deferred (run_delayed_call f st).2 = timeout_deferred st).
Proof.
  destruct f; simpl.
  - rewrite kill_timeout_eq.
    destruct (fire_frame timeout_deferred_name (true, PyBool true)
                (add_log (timeout_warning st) st)) as (d & dl & -> & Hd).
    split; [done|]. split; [done|]. by left.
  - rewrite kill_if_requests_done_eq. case_bool_decide as Hreqs.
    + destruct (fire_frame timeout_deferred_name (true, PyBool true)
                  (add_log done_info st)) as (d & dl & -> & Hd).
      split; [done|]. split; [done|]. by left.
    + split; [done|]. split; [done|]. by right.
Qed.

Lemma pop_earliest_Permutation (calls rest : list (Q * DelayedCall))
    (c : Q * DelayedCall) :
  pop_earliest calls = Some (c, rest) → calls ≡ₚ c :: rest.
Proof.
  unfold pop_earliest. destruct (earliest calls) as [i|]; csimpl; [|done].
  destruct (calls !! i) as [c'|] eqn:Hi; csimpl; [|done].
  intros [= <- <-]. by apply delete_Permutation.
Qed.

(** Only the request events change the tracked set. *)
Lemma react_running_reqs (ev : Event) (st : State) :
  running_reqs (react ev st).2 = track (running_reqs st) ev.
Proof.
  destruct ev as [h|h|ok|].
  - reflexivity.
  - unfold react, remove_req. run_M. case_bool_decide as Hin; [done|].
    simpl. symmetry. apply difference_disjoint_L.
    by apply disjoint_singleton_r.
  - unfold react. run_M.
    destruct (called (close_conn_deferred st)); [done|].
    by destruct (fire_frame close_conn_deferred_name (ok, PyNone) st)
      as (d & dl & -> & _).
  - rewrite react_delayed_call_due.
    destruct (pop_earliest (delayed_calls st)) as [[[due f] rest]|]; [|done].
    by destruct (run_delayed_call_frame f
                   (advance due (set_delayed_calls rest st))) as [-> _].
Qed.

Lemma shutdown_running_reqs (timeout : Q) (stopped_at_once : bool)
    (st : State) :
  running_reqs (shutdown timeout stopped_at_once st).2 = running_reqs st.
Proof.
  unfold shutdown, kill_if_requests_done, new_DeferredList, addCallbacks,
    Deferred_callback, fire, callLater, logging_info.
  run_M. case_bool_decide; destruct stopped_at_once; by run_M.
Qed.

(** X11: a request that is registered and then finishes leaves the state
    as it was before it came: for an identifier that was not tracked,
    [remove_req] after [request_factory] returns and restores the tracked
    set. *)
Theorem request_round_trip (req_hash : Z) (st : State) :
  req_hash ∉ running_reqs st →
  remove_req req_hash (request_factory req_hash st).2 = (Return (), st).
Proof.
  intros Hnew. unfold remove_req, request_factory. run_M.
  rewrite bool_decide_eq_true_2
    by by apply elem_of_union_l, elem_of_singleton_2.
  run_M. f_equal.
  change (set_running_reqs (λ s, ({[req_hash]} ∪ s) ∖ {[req_hash]}) st
          = st).
  apply (set_running_reqs_same (λ s, ({[req_hash]} ∪ s) ∖ {[req_hash]})).
  rewrite difference_union_distr_l_L, difference_diag_L, union_empty_l_L.
  by apply difference_disjoint_L, disjoint_singleton_r.
Qed.

Lemma request_round_trip_witness :
  remove_req 7 (request_factory 7 (serving {[3%Z]} 0)).2
    = (Return (), serving {[3%Z]} 0).
Proof.
  apply request_round_trip. simpl. apply not_elem_of_singleton. lia.
Defined.

(** X12: the tracked set is at any time the one the request events alone
    give, from before the shutdown on: a created request is added, a
    finished one removed (nothing happens when it was not there), and
    [shutdown], its timer, its rechecks and the listener never add or remove
    a request. *)
Theorem running_reqs_tracked (timeout : Q) (stopped_at_once : bool)
    (before after : list Event) (st : State) :
  running_reqs
    (run after (shutdown timeout stopped_at_once (run before st)).2)
  = foldl track (running_reqs st) (before ++ after).
Proof.
  assert (Hrun : ∀ evs st', running_reqs (run evs st')
                            = foldl track (running_reqs st') evs).
  { induction evs as [|ev evs IH]; intros st'; [done|].
    simpl. by rewrite IH, react_running_reqs. }
  by rewrite foldl_app, Hrun, shutdown_running_reqs, Hrun.
Qed.

(** What [shutdown] leaves pending, and whether it has resolved. *)
Lemma shutdown_pending (timeout : Q) (stopped_at_once : bool) (st : State) :
  called (timeout_deferred (shutdown timeout stopped_at_once st).2)
    = bool_decide (running_reqs st = ∅) ∧
  delayed_calls (shutdown timeout stopped_at_once st).2
    = delayed_calls st ++ timer timeout st ::
        (if bool_decide (running_reqs st = ∅) then []
         else [((seconds st + 5)%Q, kill_if_requests_done_call)]) ∧
  seconds (shutdown timeout stopped_at_once st).2 = seconds st.
Proof.
  unfold shutdown, kill_if_requests_done, new_DeferredList, addCallbacks,
    Deferred_callback, fire, callLater, logging_info, timer.
  run_M. case_bool_decide; destruct stopped_at_once; run_M;
    by rewrite <- ?app_assoc.
Qed.

Lemma react_waiting (x : Q * DelayedCall) (ev : Event) (st : State) :
  x.2 = kill_timeout_call → waiting x st → waiting x (react ev st).2.
Proof.
  intros Hx [Hc|[Hin [t Hre]]].
  { left. by rewrite react_resolved. }
  destruct ev as [h|h|ok|].
  - right. split; [done|by exists t].
  - unfold react, remove_req. run_M.
    case_bool_decide; right; (split; [done|by exists t]).
  - unfold react. run_M.
    destruct (called (close_conn_deferred st)).
    + right. split; [done|by exists t].
    + destruct (fire_frame close_conn_deferred_name (ok, PyNone) st)
        as (d & dl & -> & _).
      right. split; [done|by exists t].
  - rewrite react_delayed_call_due.
    destruct (pop_earliest (delayed_calls st)) as [[[due f] rest]|] eqn:Hpop.
    2:{ right. split; [done|by exists t]. }
    apply pop_earliest_Permutation in Hpop.
    set (st1 := advance due (set_delayed_calls rest st)).
    destruct (run_delayed_call_frame f st1)
      as (_ & _ & [[_ Hc]|(-> & _ & Hcalls & _)]); [by left|].
    right. unfold recheck_pending. rewrite Hcalls. split.
    + apply elem_of_app. left. simpl.
      rewrite Hpop in Hin. apply elem_of_cons in Hin as [->|Hin]; [|done].
      simpl in Hx. done.
    + eexists. apply elem_of_app. right. by left.
Qed.

Lemma run_waiting (x : Q * DelayedCall) (evs : list Event) (st : State) :
  x.2 = kill_timeout_call → waiting x st → waiting x (run evs st).
Proof.
  intros Hx. revert st. induction evs as [|ev evs IH]; intros st Hw; [done|].
  simpl. by apply IH, react_waiting.
Qed.

Lemma shutdown_waiting (timeout : Q) (stopped_at_once : bool) (st : State) :
  waiting (timer timeout st) (shutdown timeout stopped_at_once st).2.
Proof.
  destruct (shutdown_pending timeout stopped_at_once st) as (Hc & Hcalls & _).
  unfold waiting, recheck_pending. rewrite Hc, Hcalls.
  case_bool_decide; [by left|right]. split.
  - apply elem_of_app. right. by left.
  - eexists. apply elem_of_app. right. right. by left.
Qed.

(** X13: as long as [timeout_deferred] has not fired, the timer that
    [shutdown] scheduled is still pending, with the due time it was given,
    and so is a recheck: neither is ever dropped before the signal is
    resolved. *)
Theorem timer_pending (timeout : Q) (stopped_at_once : bool)
    (st : State) (evs : list Event) :
  called (timeout_deferred
            (run evs (shutdown timeout stopped_at_once st).2)) = false →
  timer timeout st
    ∈ delayed_calls (run evs (shutdown timeout stopped_at_once st).2) ∧
  recheck_pending (run evs (shutdown timeout stopped_at_once st).2).
Proof.
  intros Hc.
  destruct (run_waiting (timer timeout st) evs _ eq_refl
              (shutdown_waiting timeout stopped_at_once st)) as [Hc'|H];
    [congruence|done].
Qed.

Lemma timer_pending_witness :
  timer 10 (serving {[1%Z]} 0)
    ∈ delayed_calls
        (run [delayed_call_due] (shutdown 10 false (serving {[1%Z]} 0)).2) ∧
  recheck_pending
    (run [delayed_call_due] (shutdown 10 false (serving {[1%Z]} 0)).2).
Proof.
  apply (timer_pending 10 false (serving {[1%Z]} 0) [delayed_call_due]).
  reflexivity.
Defined.

(** X14: once the timer of [shutdown] has run and the listener has
    stopped, the shutdown is complete, whatever requests are still
    tracked. *)
Theorem forced_completion (timeout : Q) (stopped_at_once : bool)
    (st : State) (evs : list Event) :
  timer timeout st
    ∉ delayed_calls (run evs (shutdown timeout stopped_at_once st).2) →
  stopped_at_once || existsb is_listening_stopped evs = true →
  shutdown_complete (run evs (shutdown timeout stopped_at_once st).2) = true.
Proof.
  intros Hgone Hstopped.
  destruct (run_waiting (timer timeout st) evs _ eq_refl
              (shutdown_waiting timeout stopped_at_once st)) as [Hc|[Hin _]];
    [|done].
  destruct (shutdown_joined timeout stopped_at_once st) as [Hj Hcc].
  destruct (run_joined evs _ Hj) as [(dl & Hdl & _ & _ & Hlc & _) Hcc'].
  unfold shutdown_complete. rewrite Hdl, Hlc, Hc, Hcc', Hcc. done.
Qed.

Lemma forced_completion_witness :
  shutdown_complete
    (run [listening_stopped true; delayed_call_due; delayed_call_due]
       (shutdown 7 false (serving {[1%Z]} 0)).2) = true.
Proof.
  apply (forced_completion 7 false (serving {[1%Z]} 0)
           [listening_stopped true; delayed_call_due; delayed_call_due]).
  - intros Hin. vm_compute in Hin.
    apply list_elem_of_singleton in Hin. discriminate Hin.
  - reflexivity.
Defined.

(** The calls pending are for different functions. *)
Lemma react_NoDup (ev : Event) (st : State) :
  NoDup (delayed_calls st).*2 → NoDup (delayed_calls (react ev st).2).*2.
Proof.
  intros Hnd. destruct ev as [h|h|ok|].
  - done.
  - unfold react, remove_req. run_M. by case_bool_decide.
  - unfold react. run_M.
    destruct (called (close_conn_deferred st)); [done|].
    by destruct (fire_frame close_conn_deferred_name (ok, PyNone) st)
      as (d & dl & -> & _).
  - rewrite react_delayed_call_due.
    destruct (pop_earliest (delayed_calls st)) as [[[due f] rest]|] eqn:Hpop;
      [|done].
    apply pop_earliest_Permutation in Hpop.
    rewrite Hpop in Hnd. simpl in Hnd. apply NoDup_cons in Hnd as [Hf Hrest].
    set (st1 := advance due (set_delayed_calls rest st)).
    destruct (run_delayed_call_frame f st1)
      as (_ & _ & [[-> _]|(-> & _ & -> & _)]); [done|].
    rewrite fmap_app. simpl. apply NoDup_app. split; [done|].
    split; [|apply NoDup_singleton].
    intros g Hg Hg'. apply list_elem_of_singleton in Hg'. by subst g.
Qed.

(** X16: from a reactor with no delayed call of its own, the handler never
    has more than one timer and one recheck pending: the rechecks do not
    pile up. *)
Theorem pending_calls_bounded (timeout : Q) (stopped_at_once : bool)
    (st : State) (evs : list Event) :
  delayed_calls st = [] →
  NoDup (delayed_calls (run evs (shutdown timeout stopped_at_once st).2)).*2 ∧
  (length (delayed_calls (run evs (shutdown timeout stopped_at_once st).2))
   ≤ 2)%nat.
Proof.
  intros Hempty.
  assert (Hnd : NoDup (delayed_calls
                         (run evs (shutdown timeout stopped_at_once st).2)).*2).
  { assert (Hrun : ∀ evs st', NoDup (delayed_calls st').*2 →
                              NoDup (delayed_calls (run evs st')).*2).
    { clear. induction evs as [|ev evs IH]; intros st' Hnd; [done|].
      simpl. by apply IH, react_NoDup. }
    apply Hrun.
    destruct (shutdown_pending timeout stopped_at_once st) as (_ & -> & _).
    rewrite Hempty. case_bool_decide; simpl; [apply NoDup_singleton|].
    apply NoDup_cons. split; [|apply NoDup_singleton].
    by intros ?%list_elem_of_singleton. }
  split; [done|].
  rewrite <- (length_fmap snd).
  change 2%nat with (length [kill_timeout_call; kill_if_requests_done_call]).
  apply submseteq_length, NoDup_submseteq; [done|].
  intros [] _; repeat constructor.
Qed.

Lemma pending_calls_bounded_witness :
  (length (delayed_calls
             (run [delayed_call_due; delayed_call_due; delayed_call_due]
                (shutdown 20 false (serving {[1%Z]} 0)).2)) ≤ 2)%nat.
Proof.
  refine (proj2 (pending_calls_bounded 20 false (serving {[1%Z]} 0) _ _)).
  reflexivity.
Defined.

(** X17: a completed shutdown stays completed, whatever happens
    afterwards. *)
Theorem shutdown_complete_stable (timeout : Q) (stopped_at_once : bool)
    (st : State) (evs evs' : list Event) :
  shutdown_complete (run evs (shutdown timeout stopped_at_once st).2) = true →
  shutdown_complete
    (run (evs ++ evs') (shutdown timeout stopped_at_once st).2) = true.
Proof.
  destruct (shutdown_joined timeout stopped_at_once st) as [Hj _].
  destruct (run_joined evs _ Hj) as [Hj1 _].
  destruct (run_joined evs' _ Hj1) as [(dl' & Hdl' & _ & _ & Hlc' & _) Hcc].
  destruct Hj1 as (dl & Hdl & _ & _ & Hlc & _).
  unfold run in *. rewrite foldl_app.
  unfold shutdown_complete. rewrite Hdl, Hdl', Hlc, Hlc'.
  intros [Ht Hc]%andb_prop.
  fold (run evs' (foldl (λ st ev, (react ev st).2)
                    (shutdown timeout stopped_at_once st).2 evs)).
  rewrite run_resolved by done. unfold run. by rewrite Ht, Hcc, Hc.
Qed.

Lemma shutdown_complete_stable_witness :
  shutdown_complete
    (run ([listening_stopped true] ++ [delayed_call_due; request_created 4])
       (shutdown 10 false (serving ∅ 0)).2) = true.
Proof.
  apply (shutdown_complete_stable 10 false (serving ∅ 0)). reflexivity.
Defined.

Lemma earliest_from_least (pre calls : list (Q * DelayedCall))
    (best i : nat) (t : Q) (g : DelayedCall) :
  length pre = i →
  (pre ++ calls) !! best = Some (t, g) →
  Forall (λ x, (t <= x.1)%Q) pre →
  ∃ c, (pre ++ calls) !! earliest_from best t i calls = Some c ∧
       Forall (λ x, (c.1 <= x.1)%Q) (pre ++ calls).
Proof.
  revert pre best i t g.
  induction calls as [|[t' g'] r IH]; intros pre best i t g Hlen Hbest Hpre.
  { simpl. exists (t, g). by rewrite app_nil_r in *. }
  simpl. destruct (Qle_bool t t') eqn:Hle.
  - apply Qle_bool_iff in Hle.
    rewrite (cons_middle _ pre r), app_assoc in *.
    apply (IH _ best (S i) t g); [|done|].
    + rewrite length_app. simpl. lia.
    + apply Forall_app. split; [done|]. by repeat constructor.
  - assert (t' <= t)%Q as Hlt.
    { apply Qlt_le_weak, Qnot_le_lt. intros Hle'.
      apply Qle_bool_iff in Hle'. congruence. }
    assert ((pre ++ (t', g') :: r) !! i = Some (t', g')) as Hi.
    { subst i. by apply list_lookup_middle. }
    rewrite (cons_middle _ pre r), app_assoc in *.
    apply (IH _ i (S i) t' g'); [|done|].
    + rewrite length_app. simpl. lia.
    + apply Forall_app. split; [|repeat constructor; apply Qle_refl].
      eapply Forall_impl; [exact Hpre|]. intros x Hx. simpl in *.
      by eapply Qle_trans.
Qed.

(** The call that runs next is a pending one that is due first. *)
Lemma pop_earliest_least (calls rest : list (Q * DelayedCall))
    (c : Q * DelayedCall) :
  pop_earliest calls = Some (c, rest) →
  Forall (λ x, (c.1 <= x.1)%Q) calls.
Proof.
  unfold pop_earliest, earliest. destruct calls as [|[t g] r]; [done|].
  csimpl.
  destruct (earliest_from_least [(t, g)] r 0 1 t g eq_refl eq_refl)
    as (c' & Hc' & Hleast).
  { repeat constructor. apply Qle_refl. }
  simpl in Hc', Hleast. rewrite Hc'. csimpl. by intros [= <- _].
Qed.

(** Some call runs next unless none is pending. *)
Lemma pop_earliest_None (calls : list (Q * DelayedCall)) :
  pop_earliest calls = None → calls = [].
Proof.
  unfold pop_earliest, earliest. destruct calls as [|[t g] r]; [done|].
  csimpl.
  destruct (earliest_from_least [(t, g)] r 0 1 t g eq_refl eq_refl)
    as (c & Hc & _); [repeat constructor; apply Qle_refl|].
  simpl in Hc. by rewrite Hc.
Qed.

Lemma react_in_time (x : Q * DelayedCall) (ev : Event) (st : State) :
  x.2 = kill_timeout_call → in_time x st → in_time x (react ev st).2.
Proof.
  intros Hx [Hc|[Hin Hsec]].
  { left. by rewrite react_resolved. }
  destruct ev as [h|h|ok|].
  - by right.
  - unfold react, remove_req. run_M. case_bool_decide; by right.
  - unfold react. run_M.
    destruct (called (close_conn_deferred st)); [by right|].
    destruct (fire_frame close_conn_deferred_name (ok, PyNone) st)
      as (d & dl & -> & _).
    by right.
  - rewrite react_delayed_call_due.
    destruct (pop_earliest (delayed_calls st)) as [[[due f] rest]|] eqn:Hpop;
      [|by right].
    pose proof (pop_earliest_least _ _ _ Hpop) as Hleast.
    apply pop_earliest_Permutation in Hpop.
    rewrite Forall_forall in Hleast. specialize (Hleast x Hin). simpl in Hleast.
    set (st1 := advance due (set_delayed_calls rest st)).
    assert (seconds st1 <= x.1)%Q as Hsec1.
    { subst st1. unfold advance. simpl.
      by destruct (Qle_bool (seconds st) due). }
    destruct (run_delayed_call_frame f st1)
      as (_ & Hs & [[_ Hc]|(-> & _ & Hcalls & _)]); [by left|].
    right. rewrite Hcalls, Hs. split; [|done].
    apply elem_of_app. left. simpl.
    rewrite Hpop in Hin. apply elem_of_cons in Hin as [->|Hin]; [|done].
    simpl in Hx. done.
Qed.

(** X18: with a timeout that is not negative, [timeout_deferred] is unfired
    only up to the time the timer is due: the clock never passes
    [timeout] seconds after the shutdown request without the signal being
    resolved, however the 5-second rechecks fall. *)
Theorem resolved_in_time (timeout : Q) (stopped_at_once : bool)
    (st : State) (evs : list Event) :
  (0 <= timeout)%Q →
  called (timeout_deferred
            (run evs (shutdown timeout stopped_at_once st).2)) = false →
  (seconds (run evs (shutdown timeout stopped_at_once st).2)
   <= seconds st + timeout)%Q.
Proof.
  intros Hpos Hc.
  assert (Hrun : ∀ evs st', in_time (timer timeout st) st' →
                            in_time (timer timeout st) (run evs st')).
  { clear. induction evs as [|ev evs IH]; intros st' Hw; [done|].
    simpl. by apply IH, react_in_time. }
  destruct (Hrun evs (shutdown timeout stopped_at_once st).2)
    as [Hc'|[_ Hsec]]; [|congruence|done].
  destruct (shutdown_pending timeout stopped_at_once st)
    as (_ & Hcalls & Hsec).
  right. rewrite Hcalls, Hsec. split.
  - apply elem_of_app. right. by left.
  - simpl. lra.
Qed.

Lemma resolved_in_time_witness :
  (seconds (run [delayed_call_due]
              (shutdown 7 false (serving {[1%Z]} 0)).2) <= 0 + 7)%Q.
Proof.
  apply (resolved_in_time 7 false (serving {[1%Z]} 0) [delayed_call_due]).
  - by vm_compute.
  - reflexivity.
Defined.

(** X15: when no request is tracked any more, the next delayed call that
    runs leaves [timeout_deferred] fired, be it a recheck or the timer. *)
Theorem drained_next_call (timeout : Q) (stopped_at_once : bool)
    (st : State) (evs : list Event) :
  running_reqs (run evs (shutdown timeout stopped_at_once st).2) = ∅ →
  called (timeout_deferred
            (react delayed_call_due
               (run evs (shutdown timeout stopped_at_once st).2)).2) = true.
Proof.
  set (st' := run evs (shutdown timeout stopped_at_once st).2).
  intros Hempty.
  destruct (run_waiting (timer timeout st) evs _ eq_refl
              (shutdown_waiting timeout stopped_at_once st)) as [Hc|[Hin _]];
    fold st' in Hc || fold st' in Hin.
  { by rewrite react_resolved. }
  rewrite react_delayed_call_due.
  destruct (pop_earliest (delayed_calls st')) as [[[due f] rest]|] eqn:Hpop.
  - destruct (run_delayed_call_frame f
                (advance due (set_delayed_calls rest st')))
      as (_ & _ & [[_ Hc]|(_ & Hne & _)]); [done|].
    by destruct Hne.
  - apply pop_earliest_None in Hpop. rewrite Hpop in Hin.
    by apply elem_of_nil in Hin.
Qed.

Lemma drained_next_call_witness :
  called (timeout_deferred
            (react delayed_call_due
               (run [request_finished 1]
                  (shutdown 10 false (serving {[1%Z]} 0)).2)).2) = true.
Proof.
  apply (drained_next_call 10 false (serving {[1%Z]} 0) [request_finished 1]).
  by vm_compute.
Defined.

End Reactor.

(** * Further properties of [retwist/param.py] *)

Section Parsers.

Ltac case_ltb :=
  repeat match goal with
  | |- context [(?x <? ?y)%Z] => destruct (Z.ltb_spec x y); csimpl
  end.

Ltac case_format :=
  repeat match goal with
  | |- context [format_d ?m] => destruct (format_d m); csimpl
  end.

Lemma decode_valid (val : string) :
  valid_utf8 val = true → ∃ s, decode val = Return s.
Proof.
  unfold valid_utf8, decode.
  destruct (utf8_decode (byte_values val)) as [s|]; [by exists s|done].
Qed.

Lemma decode_invalid (val : string) :
  valid_utf8 val = false → decode val = Raise UnicodeDecodeError.
Proof.
  unfold valid_utf8, decode.
  by destruct (utf8_decode (byte_values val)).
Qed.

(** [int] raises nothing but [ValueError]. *)
Lemma int_raises (s : list N) (e : exn) :
  int s = Raise e → is_ValueError e = true.
Proof.
  assert (Hu : ∀ l e',
             unsigned_literal l = Raise e' → is_ValueError e' = true).
  { intros l e'. unfold unsigned_literal.
    repeat case_match; by intros [= <-]. }
  unfold int, PyLong_FromString.
  destruct (lstrip (to_ascii s)) as [|c r]; [by intros [= <-]|].
  repeat case_match; try apply Hu.
  destruct (unsigned_literal r) as [z|e'] eqn:Hr; [done|].
  intros [= <-]. by apply (Hu r).
Qed.

Lemma decode_decimal (val : string) :
  decimal val → decode val = Return (byte_values val).
Proof.
  intros Hd. apply decimal_digits in Hd as [_ Hds].
  unfold decode. by rewrite utf8_decode_ascii by by apply digits_ascii.
Qed.

(** X4: what [IntParam.parse] returns is the integer that [int] reads in
    the decoded value, and it respects each bound that is set. *)
Theorem IntParam_parse_sound (min_val max_val : option Z) (val : string)
    (v : PyVal) :
  IntParam_parse min_val max_val val = Return v →
  ∃ s n, decode val = Return s ∧ int s = Return n ∧ v = PyInt n ∧
    (∀ m, min_val = Some m → (m ≤ n)%Z) ∧
    (∀ m, max_val = Some m → (n ≤ m)%Z).
Proof.
  unfold IntParam_parse. destruct (decode val) as [s|]; [|done]. csimpl.
  destruct (int s) as [n|e] eqn:Hint; csimpl.
  2:{ by destruct (is_ValueError e). }
  destruct min_val as [a|], max_val as [b|]; csimpl; case_ltb;
    case_format; try done;
    intros [= <-]; exists s, n; repeat split; try done;
    intros m [= <-]; lia.
Qed.

Lemma IntParam_parse_sound_witness :
  ∃ s n, decode "7" = Return s ∧ int s = Return n ∧ PyInt 7 = PyInt n ∧
    (∀ m, Some 1%Z = Some m → (m ≤ n)%Z) ∧
    (∀ m, Some 10%Z = Some m → (n ≤ m)%Z).
Proof.
  apply (IntParam_parse_sound (Some 1%Z) (Some 10%Z) "7" (PyInt 7)).
  reflexivity.
Defined.

(** X5: an [IntParam] whose [min_val] exceeds its [max_val] accepts no
    value at all. *)
Theorem IntParam_parse_empty_range (a b : Z) (val : string) (v : PyVal) :
  (b < a)%Z → IntParam_parse (Some a) (Some b) val ≠ Return v.
Proof.
  intros Hab. unfold IntParam_parse.
  destruct (decode val) as [s|]; [|done]. csimpl.
  destruct (int s) as [n|e]; csimpl; [|by destruct (is_ValueError e)].
  case_ltb; case_format; try done. lia.
Qed.

Lemma IntParam_parse_empty_range_witness :
  IntParam_parse (Some 5%Z) (Some 3%Z) "4" ≠ Return (PyInt 4).
Proof. apply IntParam_parse_empty_range. lia. Defined.

Lemma IntParam_parse_decimal_eq (min_val max_val : option Z) (val : string) :
  decimal val → within_limit val →
  IntParam_parse min_val max_val val =
    (_ ← match min_val with
         | Some m =>
           if (decimal_value val <? m)%Z
           then digits ← format_d m;
                Raise (Error BAD_REQUEST ("Minimum value " +:+ digits))
           else Return ()
         | None => Return ()
         end;
     _ ← match max_val with
         | Some m =>
           if (m <? decimal_value val)%Z
           then digits ← format_d m;
                Raise (Error BAD_REQUEST ("Maximum value " +:+ digits))
           else Return ()
         | None => Return ()
         end;
     Return (PyInt (decimal_value val))).
Proof.
  intros Hd Hlimit. unfold IntParam_parse.
  rewrite (decode_decimal _ Hd). csimpl.
  by rewrite (int_decimal_bytes _ Hd Hlimit).
Qed.

(** X6: for a value made of decimal digits, at most 4300 of them,
    [IntParam.parse] returns the number when it is within the bounds; below
    [min_val] it raises the [BAD_REQUEST] [Error] that names the minimum,
    and above [max_val], when the minimum is respected, the one that names
    the maximum; a bound too long to be written in the message raises the
    [ValueError] of the conversion instead. *)
Theorem IntParam_parse_decimal (min_val max_val : option Z) (val : string) :
  decimal val → within_limit val →
  ((∀ m, min_val = Some m → (m ≤ decimal_value val)%Z) →
   (∀ m, max_val = Some m → (decimal_value val ≤ m)%Z) →
   IntParam_parse min_val max_val val = Return (PyInt (decimal_value val))) ∧
  (∀ m, min_val = Some m → (decimal_value val < m)%Z →
   IntParam_parse min_val max_val val
     = (digits ← format_d m;
        Raise (Error BAD_REQUEST ("Minimum value " +:+ digits)))) ∧
  (∀ m, max_val = Some m → (m < decimal_value val)%Z →
   (∀ m', min_val = Some m' → (m' ≤ decimal_value val)%Z) →
   IntParam_parse min_val max_val val
     = (digits ← format_d m;
        Raise (Error BAD_REQUEST ("Maximum value " +:+ digits)))).
Proof.
  intros Hd Hlimit. rewrite (IntParam_parse_decimal_eq _ _ _ Hd Hlimit).
  split; [|split].
  - intros Hmin Hmax.
    destruct min_val as [a|]; [specialize (Hmin a eq_refl)|];
      (destruct max_val as [b|]; [specialize (Hmax b eq_refl)|]); csimpl;
      case_ltb; done || lia.
  - intros m -> Hlt. csimpl. case_ltb; [|lia]. by destruct (format_d m).
  - intros m -> Hlt Hmin.
    destruct min_val as [a|]; [specialize (Hmin a eq_refl)|]; csimpl;
      case_ltb; try lia; by destruct (format_d m).
Qed.

Lemma IntParam_parse_decimal_witness :
  IntParam_parse (Some 1%Z) (Some 100%Z) "042" = Return (PyInt 42) ∧
  IntParam_parse (Some 1%Z) (Some 100%Z) "0"
    = Raise (Error BAD_REQUEST "Minimum value 1") ∧
  IntParam_parse (Some 1%Z) (Some 100%Z) "101"
    = Raise (Error BAD_REQUEST "Maximum value 100").
Proof.
  assert (Hd : ∀ s, s ∈ ["042"; "0"; "101"] →
                    decimal s ∧ within_limit s).
  { intros s Hs. repeat (apply elem_of_cons in Hs as [ -> | Hs ];
      [by (split; [split; [|repeat constructor]|])|]).
    by apply elem_of_nil in Hs. }
  split; [|split].
  - refine (proj1 (IntParam_parse_decimal (Some 1%Z) (Some 100%Z) "042" _ _)
              _ _); try (apply Hd; repeat constructor).
    + intros m [= <-]. by vm_compute.
    + intros m [= <-]. by vm_compute.
  - refine (proj1 (proj2 (IntParam_parse_decimal (Some 1%Z) (Some 100%Z) "0"
                            _ _)) 1%Z eq_refl _);
      try (apply Hd; repeat constructor).
    by vm_compute.
  - refine (proj2 (proj2 (IntParam_parse_decimal (Some 1%Z) (Some 100%Z)
                            "101" _ _)) 100%Z eq_refl _ _);
      try (apply Hd; repeat constructor).
    + by vm_compute.
    + intros m [= <-]. by vm_compute.
Defined.

(** X7: every [parse] method decodes first: on a value that is not valid
    UTF-8 each of them raises [UnicodeDecodeError], whatever the bounds or
    the enumeration. *)
Theorem parse_undecodable (val : string) (min_val max_val : option Z)
    (sorted_enum_bytes : gset (list N) → string) (enum : gset (list N)) :
  valid_utf8 val = false →
  Param_parse val = Raise UnicodeDecodeError ∧
  BoolParam_parse val = Raise UnicodeDecodeError ∧
  IntParam_parse min_val max_val val = Raise UnicodeDecodeError ∧
  EnumParam_parse sorted_enum_bytes enum val = Raise UnicodeDecodeError ∧
  VersionParam_parse val = Raise UnicodeDecodeError.
Proof.
  intros Hv. apply decode_invalid in Hv.
  unfold Param_parse, BoolParam_parse, IntParam_parse, EnumParam_parse,
    VersionParam_parse.
  by rewrite Hv.
Qed.

Lemma parse_undecodable_witness :
  IntParam_parse None None (bytes_of_values [49; 255])
    = Raise UnicodeDecodeError.
Proof.
  refine (proj1 (proj2 (proj2
    (parse_undecodable (bytes_of_values [49; 255]) None None
       (λ _, "") ∅ _)))).
  reflexivity.
Defined.

Lemma map_result_int (l : list (list N)) :
  (∃ t, map_result int l = Return t ∧
        Forall2 (λ c z, int c = Return z) l t) ∨
  (∃ e, map_result int l = Raise e ∧ is_ValueError e = true ∧
        Exists (λ c, int c = Raise e) l).
Proof.
  induction l as [|c l IH]; csimpl.
  { left. exists []. by split. }
  destruct (int c) as [z|e] eqn:Hc; csimpl.
  - destruct IH as [(t & -> & Ht)|(e & -> & He & Hex)]; csimpl.
    + left. exists (z :: t). split; [done|]. by constructor.
    + right. exists e. split; [done|]. split; [done|]. by constructor 2.
  - right. exists e. split; [done|]. split; [by apply int_raises in Hc|].
    by constructor 1.
Qed.

Lemma split_not_nil (sep : N) (s : list N) : split sep s ≠ [].
Proof.
  induction s as [|c s IH]; simpl; [done|].
  destruct (c =? sep); [done|]. by destruct (split sep s).
Qed.

(** X8: on a value that decodes, [VersionParam.parse] works component by
    component: it returns the tuple [t] exactly when [int] reads the
    components between the dots as the items of [t]; it raises the
    [BAD_REQUEST] [Error] exactly when [int] refuses some component, an
    empty one included; and a tuple it returns is never empty. *)
Theorem VersionParam_parse_components (val : string) (s : list N) :
  decode val = Return s →
  (∀ t, VersionParam_parse val = Return (PyTuple t) ↔
        Forall2 (λ c z, int c = Return z) (split dot s) t) ∧
  (VersionParam_parse val
     = Raise (Error BAD_REQUEST "Invalid version literal") ↔
   Exists (λ c, ∃ e, int c = Raise e) (split dot s)) ∧
  (∀ v, VersionParam_parse val = Return v → ∃ z t, v = PyTuple (z :: t)).
Proof.
  intros Hd. unfold VersionParam_parse. rewrite Hd. csimpl.
  destruct (map_result_int (split dot s))
    as [(t & -> & Ht)|(e & -> & He & Hex)]; csimpl.
  - split; [|split].
    + intros t'. split.
      * by intros [= <-].
      * intros Ht'. do 2 f_equal. revert t' Ht'.
        induction Ht as [|c z l t Hc _ IH]; intros t' Ht';
          inversion Ht' as [|? z' ? t'' Hc' Hr]; subst; [done|].
        f_equal; [congruence|by apply IH].
    + split; [done|]. intros Hex. exfalso.
      induction Ht as [|c z l t Hc _ IH]; inversion Hex as [? ? [e He]|]; subst;
        [congruence|auto].
    + intros v [= <-]. destruct t as [|z t]; [|by exists z, t].
      inversion Ht as [Hnil|]. by apply eq_sym, split_not_nil in Hnil.
  - rewrite He. split; [|split].
    + intros t. split; [done|]. intros Ht. exfalso.
      induction Ht as [|c z l t' Hc _ IH]; inversion Hex; subst;
        [congruence|auto].
    + split; [|done]. intros _. eapply Exists_impl; [exact Hex|].
      intros c Hc. by exists e.
    + done.
Qed.

Lemma VersionParam_parse_components_witness :
  VersionParam_parse "1..2"
    = Raise (Error BAD_REQUEST "Invalid version literal") ↔
  Exists (λ c, ∃ e, int c = Raise e) (split dot (text "1..2")).
Proof.
  refine (proj1 (proj2 (VersionParam_parse_components "1..2" _ _))).
  reflexivity.
Defined.

(** X9: [EnumParam.parse] returns only members of the enumeration, as
    text: it returns [v] exactly when the value decodes to a member [s] and
    [v] is [s]; a value that decodes to anything else raises the
    [BAD_REQUEST] [Error]. *)
Theorem EnumParam_parse_member (sorted_enum_bytes : gset (list N) → string)
    (enum : gset (list N)) (val : string) :
  (∀ v, EnumParam_parse sorted_enum_bytes enum val = Return v ↔
        ∃ s, decode val = Return s ∧ s ∈ enum ∧ v = PyStr s) ∧
  (∀ s, decode val = Return s → s ∉ enum →
        EnumParam_parse sorted_enum_bytes enum val
          = Raise (Error BAD_REQUEST
                     ("Parameter must be one of "
                      +:+ sorted_enum_bytes enum))).
Proof.
  unfold EnumParam_parse. destruct (decode val) as [s|e]; csimpl.
  - split.
    + intros v. case_bool_decide as Hin; split.
      * done.
      * intros (s' & [= <-] & Hs & _). done.
      * intros [= <-]. by exists s.
      * by intros (s' & [= <-] & _ & ->).
    + intros s' [= <-] Hs. by rewrite bool_decide_eq_true_2.
  - split; [|done]. intros v. split; [done|]. by intros (s' & ? & _).
Qed.

Lemma EnumParam_parse_member_witness :
  EnumParam_parse (λ _, "['asc', 'desc']") {[text "asc"; text "desc"]} "up"
    = Raise (Error BAD_REQUEST "Parameter must be one of ['asc', 'desc']").
Proof.
  refine (proj2 (EnumParam_parse_member (λ _, "['asc', 'desc']")
                   {[text "asc"; text "desc"]} "up") (text "up") _ _).
  - reflexivity.
  - intros Hin. apply elem_of_union in Hin as [Hin|Hin];
      apply elem_of_singleton in Hin; discriminate Hin.
Defined.

(** X10: without a [lang] query argument [LangParam.parse_from_request]
    never looks at [required]: with no [Accept-Language] header, or an
    empty one, it returns the default; with a header it returns the first
    locale that [parse_accept_language] gives, and the default when that
    gives none or raises a [ValueError]. *)
Theorem LangParam_without_lang
    (parse_accept_language : list N → result (list (list N * list N)))
    (self : Param) (name : list N) (request : Request)
    (http_header : option (list N)) :
  args request !! "lang" = None →
  LangParam_parse_from_request parse_accept_language self name request
      http_header
    = infer_lang parse_accept_language self http_header ∧
  (http_header = None ∨ http_header = Some [] →
   infer_lang parse_accept_language self http_header
     = Return (default self)) ∧
  (∀ header locale weight locales,
     http_header = Some header → header ≠ [] →
     parse_accept_language header = Return ((locale, weight) :: locales) →
     infer_lang parse_accept_language self http_header
       = Return (PyStr locale)) ∧
  (∀ header e,
     http_header = Some header →
     (parse_accept_language header = Return [] ∨
      parse_accept_language header = Raise e ∧ is_ValueError e = true) →
     infer_lang parse_accept_language self http_header
       = Return (default self)).
Proof.
  intros Hargs. unfold LangParam_parse_from_request, infer_lang.
  rewrite Hargs. split; [done|]. split; [|split].
  - by intros [->| ->].
  - intros header locale weight locales -> Hne ->.
    simpl. by case_bool_decide.
  - intros header e -> [->|[-> ->]]; simpl; by case_bool_decide.
Qed.

Lemma LangParam_without_lang_witness :
  LangParam_parse_from_request (λ _, Return [])
    {| required := true; default := PyNone; parse := Param_parse |}
    (text "lang") {| args := ∅ |} None
  = Return PyNone.
Proof.
  assert (args {| args := ∅ |} !! "lang" = None) as Hargs by reflexivity.
  destruct (LangParam_without_lang (λ _, Return [])
    {| required := true; default := PyNone; parse := Param_parse |}
    (text "lang") {| args := ∅ |} None Hargs) as (H1 & H2 & _).
  rewrite H1. apply H2. by left.
Defined.

End Parsers.

Section Utf8RoundTrip.

Lemma byte_values_bytes_of_values (l : list N) :
  Forall (λ b, b < 256) l → byte_values (bytes_of_values l) = l.
Proof.
  unfold byte_values, bytes_of_values.
  rewrite list_ascii_of_string_of_list_ascii.
  induction 1 as [|b l Hb _ IH]; csimpl; [done|].
  f_equal; [by apply N_ascii_embedding|apply IH].
Qed.

(** Decides the comparison that guards the next branch of the goal. *)
Ltac branch :=
  match goal with
  | |- context [if ?b then _ else _] =>
    first
      [ replace b with true
          by (symmetry;
              rewrite ?andb_true_iff, ?N.leb_le, ?N.ltb_lt, ?N.eqb_eq; lia)
      | replace b with false
          by (symmetry;
              rewrite ?andb_false_iff, ?N.leb_gt, ?N.ltb_ge, ?N.eqb_neq; lia) ]
  end.

Ltac Zify.zify_post_hook ::= Z.to_euclidean_division_equations.

Lemma utf8_decode_encode_char (c : N) (ch rest : list N) :
  utf8_encode_char c = Some ch →
  utf8_decode (ch ++ rest) = cons c <$> utf8_decode rest ∧
  Forall (λ b, b < 256) ch.
Proof.
  unfold utf8_encode_char, tail6, between.
  change (64 ^ 0) with 1. change (64 ^ 1) with 64. change (64 ^ 2) with 4096.
  rewrite N.div_1_r.
  destruct (c <? 128) eqn:H1; reflect_N.
  { intros [= <-]. split; [|repeat constructor; cbv beta; lia].
    cbn [app utf8_decode]. by branch. }
  destruct (c <? 2048) eqn:H2; reflect_N.
  { intros [= <-]. split; [|repeat constructor; cbv beta; lia].
    cbn [app utf8_decode]. unfold continuation, between, push6.
    repeat branch. do 2 f_equal. lia. }
  destruct ((55296 <=? c) && (c <=? 57343)) eqn:H3; [done|].
  apply andb_false_iff in H3. rewrite !N.leb_gt in H3.
  destruct (c <? 65536) eqn:H4; reflect_N.
  { intros [= <-]. split; [|repeat constructor; cbv beta; lia].
    cbn [app utf8_decode].
    unfold second_of_three, continuation, between, push6.
    destruct (N.eqb_spec (224 + c / 4096) 224);
      [|destruct (N.eqb_spec (224 + c / 4096) 237)];
      repeat branch; do 2 f_equal; lia. }
  destruct (c <? 1114112) eqn:H5; [|done]. reflect_N.
  intros [= <-]. split; [|repeat constructor; cbv beta; lia].
  cbn [app utf8_decode].
  unfold second_of_four, continuation, between, push6.
  destruct (N.eqb_spec (240 + c / 262144) 240);
    [|destruct (N.eqb_spec (240 + c / 262144) 244)];
    repeat branch; do 2 f_equal; lia.
Qed.

Lemma utf8_decode_encode (s : list N) (chunks : list (list N)) :
  mapM utf8_encode_char s = Some chunks →
  utf8_decode (concat chunks) = Some s ∧
  Forall (λ b, b < 256) (concat chunks).
Proof.
  rewrite mapM_Some.
  induction 1 as [|c ch s chunks Hc _ [IH1 IH2]]; [done|].
  destruct (utf8_decode_encode_char c ch (concat chunks) Hc) as [Hd Hb].
  simpl. rewrite Hd, IH1. split; [done|]. by apply Forall_app.
Qed.

Lemma decode_of_encode (s : list N) (b : string) :
  encode s = Return b → decode b = Return s.
Proof.
  unfold encode, decode.
  destruct (mapM utf8_encode_char s) as [chunks|] eqn:Hm; [|done].
  intros [= <-]. destruct (utf8_decode_encode _ _ Hm) as [Hd Hb].
  rewrite byte_values_bytes_of_values by done. by rewrite Hd.
Qed.

Lemma fmap_cons_Some (c : N) (o : option (list N)) (s : list N) :
  cons c <$> o = Some s → ∃ s', o = Some s' ∧ s = c :: s'.
Proof. destruct o as [s'|]; csimpl; [|done]. intros [= <-]. by exists s'. Qed.

Lemma utf8_encode_decode (n : nat) (bs s : list N) :
  (length bs ≤ n)%nat →
  utf8_decode bs = Some s →
  ∃ chunks, Forall2 (λ c ch, utf8_encode_char c = Some ch) s chunks ∧
            concat chunks = bs.
Proof.
  revert bs s. induction n as [|n IH]; intros bs s Hn.
  { destruct bs; [|simpl in Hn; lia]. intros [= <-]. by exists []. }
  destruct bs as [|b0 r0]; [intros [= <-]; by exists []|].
  cbn [utf8_decode]. simpl in Hn.
  assert (Hstep : ∀ (c : N) (ch rest : list N),
    (length rest ≤ n)%nat → utf8_encode_char c = Some ch →
    cons c <$> utf8_decode rest = Some s →
    ∃ chunks, Forall2 (λ c ch, utf8_encode_char c = Some ch) s chunks ∧
              concat chunks = ch ++ rest).
  { intros c ch rest Hlen Hch Hd.
    apply fmap_cons_Some in Hd as (s' & Hd & ->).
    destruct (IH rest s' Hlen Hd) as (chunks & Hchunks & <-).
    exists (ch :: chunks). split; [by constructor|done]. }
  destruct (b0 <? 128) eqn:H0.
  { apply (Hstep b0 [b0] r0); [lia|]. unfold utf8_encode_char. by rewrite H0. }
  destruct r0 as [|b1 r1]; [done|]. simpl in Hn.
  destruct (between 194 223 b0) eqn:H2.
  { destruct (continuation b1) eqn:Hc1; [|done].
    apply (Hstep _ [b0; b1] r1); [lia|].
    unfold utf8_encode_char, tail6, push6, continuation, between in *.
    change (64 ^ 0) with 1. rewrite N.div_1_r. reflect_N.
    repeat branch. do 2 f_equal; [lia|f_equal; lia]. }
  destruct r1 as [|b2 r2]; [done|]. simpl in Hn.
  destruct (between 224 239 b0) eqn:H3.
  { destruct (second_of_three b0 b1 && continuation b2) eqn:Hc; [|done].
    apply (Hstep _ [b0; b1; b2] r2); [lia|].
    unfold utf8_encode_char, tail6, push6, second_of_three, continuation,
      between in *.
    change (64 ^ 0) with 1. change (64 ^ 1) with 64. rewrite N.div_1_r.
    destruct (N.eqb_spec b0 224); [|destruct (N.eqb_spec b0 237)];
      reflect_N; repeat branch;
      (do 2 f_equal; [lia|f_equal; [lia|f_equal; lia]]). }
  destruct r2 as [|b3 r3]; [done|]. simpl in Hn.
  destruct (between 240 244 b0) eqn:H4; [|done].
  destruct (second_of_four b0 b1 && continuation b2 && continuation b3)
    eqn:Hc; [|done].
  apply (Hstep _ [b0; b1; b2; b3] r3); [lia|].
  unfold utf8_encode_char, tail6, push6, second_of_four, continuation,
    between in *.
  change (64 ^ 0) with 1. change (64 ^ 1) with 64. change (64 ^ 2) with 4096.
  rewrite N.div_1_r.
  destruct (N.eqb_spec b0 240); [|destruct (N.eqb_spec b0 244)];
    reflect_N; repeat branch;
    (do 2 f_equal; [lia|f_equal; [lia|f_equal; [lia|f_equal; lia]]]).
Qed.

Lemma bytes_of_values_byte_values (val : string) :
  bytes_of_values (byte_values val) = val.
Proof.
  unfold bytes_of_values, byte_values.
  induction val as [|a val IH]; csimpl; [done|].
  by rewrite ascii_N_embedding, IH.
Qed.

Lemma encode_of_decode (val : string) (s : list N) :
  decode val = Return s → encode s = Return val.
Proof.
  unfold decode, encode.
  destruct (utf8_decode (byte_values val)) as [s'|] eqn:Hd; [|done].
  intros [= <-].
  destruct (utf8_encode_decode _ _ _ (le_n _) Hd) as (chunks & Hch & Hcat).
  apply mapM_Some in Hch. rewrite Hch, Hcat.
  by rewrite bytes_of_values_byte_values.
Qed.

(** X1: [Param.parse] undoes [str.encode]: it returns the text [s] exactly
    for the byte string that is the UTF-8 encoding of [s]. *)
Theorem Param_parse_encode (val : string) (s : list N) :
  Param_parse val = Return (PyStr s) ↔ encode s = Return val.
Proof.
  unfold Param_parse. split.
  - destruct (decode val) as [s'|] eqn:Hd; [|done]. csimpl.
    intros [= <-]. by apply encode_of_decode.
  - intros Hs. by rewrite (decode_of_encode _ _ Hs).
Qed.

(** X2: a text parameter passed once, as the UTF-8 encoding of [s], is
    returned as [s], whatever [required] and [default] are. *)
Theorem parse_from_request_text (required : bool) (default : PyVal)
    (name s : list N) (name_bytes b : string) (request : Request) :
  encode name = Return name_bytes →
  encode s = Return b →
  args request !! name_bytes = Some [b] →
  parse_from_request
    {| Param.required := required; Param.default := default;
       parse := Param_parse |} name request
    = Return (PyStr s).
Proof.
  intros Hname Hs Hargs. unfold parse_from_request.
  rewrite Hname. csimpl. rewrite Hargs. csimpl.
  unfold Param_parse. by rewrite (decode_of_encode _ _ Hs).
Qed.

Lemma parse_from_request_text_witness :
  parse_from_request
    {| Param.required := true; Param.default := PyNone;
       parse := Param_parse |}
    (text "city") {| args := {[ "city" := ["Köln"] ]} |}
    = Return (PyStr [75; 246; 108; 110]).
Proof.
  apply (parse_from_request_text true PyNone (text "city")
           [75; 246; 108; 110] "city" "Köln"); reflexivity.
Defined.

(** X3: an argument passed any number of times other than once, none
    included, is refused with the [BAD_REQUEST] [Error] that names it;
    [parse], [required] and [default] play no part. *)
Theorem parse_from_request_arity (self : Param) (name : list N)
    (name_bytes : string) (vals : list string) (request : Request) :
  encode name = Return name_bytes →
  args request !! name_bytes = Some vals →
  length vals ≠ 1%nat →
  parse_from_request self name request
    = Raise (Error BAD_REQUEST
               ("Pass exactly one argument for " +:+ name_bytes)).
Proof.
  intros Hname Hargs Hlen. unfold parse_from_request.
  rewrite Hname. csimpl. rewrite Hargs.
  by destruct vals as [|val [|val' vals]].
Qed.

Lemma parse_from_request_arity_witness :
  parse_from_request
    {| Param.required := false; Param.default := PyBool true;
       parse := BoolParam_parse |}
    (text "flag") {| args := {[ "flag" := ["true"; "true"] ]} |}
    = Raise (Error BAD_REQUEST "Pass exactly one argument for flag").
Proof.
  apply (parse_from_request_arity _ (text "flag") "flag" ["true"; "true"]);
    [reflexivity|reflexivity|simpl; lia].
Defined.

End Utf8RoundTrip.
